(** * The execve sensor: capture agent, ring channel and consumer loop

    A shallow embedding of

      - [sensor/ebpf/include/syscall_monitor.h]   (the event record),
      - [sensor/ebpf/src/syscall_monitor.bpf.c]   (the capture agent),
      - [sensor/ebpf/loader/syscall_loader.c]     (the consumer loop),

    together with a model of the kernel helpers and of the libbpf calls
    the two programs are written against.  The record lives in a slot of
    the ring buffer as 304 bytes; the capture agent writes it field by
    field through a pointer into that slot, and the loader reads the
    same bytes back through the same struct. *)

From Stdlib Require Import ZArith Lia List Strings.String Strings.Ascii Strings.Byte DecimalString.
From stdpp Require Import base tactics option list gmap.

Local Open Scope Z_scope.

(** ** Bytes and little-endian integers *)

Definition byte_of_Z (z : Z) : byte :=
  default x00 (Byte.of_N (Z.to_N (z mod 256))).

Definition Z_of_byte (b : byte) : Z := Z.of_N (Byte.to_N b).

(** The [n] low-order bytes of [v], least significant first (the layout
    of an integer field on both the BPF target and the host). *)
Fixpoint le_bytes (n : nat) (v : Z) : list byte :=
  match n with
  | O => []
  | S n' => byte_of_Z v :: le_bytes n' (v / 256)
  end.

Fixpoint le_value (bs : list byte) : Z :=
  match bs with
  | [] => 0
  | b :: bs' => Z_of_byte b + 256 * le_value bs'
  end.

(** C integer conversions. *)
Definition to_u32 (v : Z) : Z := v mod 2 ^ 32.
Definition to_u64 (v : Z) : Z := v mod 2 ^ 64.
Definition to_s32 (v : Z) : Z :=
  let u := v mod 2 ^ 32 in if u <? 2 ^ 31 then u else u - 2 ^ 32.

(** ** Raw memory of one record slot *)

(** [store off bs m] is [memcpy (m + off, bs, |bs|)]; [load off n m] reads
    [n] bytes at [m + off]. *)
Definition store (off : nat) (bs : list byte) (m : list byte) : list byte :=
  list_inserts off bs m.

Definition load (off n : nat) (m : list byte) : list byte :=
  take n (drop off m).

(** The NUL-terminated string that starts at the head of [bs], terminator
    excluded: what [%s] prints and what [strlen] measures. *)
Fixpoint c_str (bs : list byte) : list byte :=
  match bs with
  | [] => []
  | b :: bs' => if Byte.eqb b x00 then [] else b :: c_str bs'
  end.

(** ** syscall_monitor.h: the event record *)

Definition TASK_COMM_LEN : nat := 16.
Definition MAX_PATH_LEN : nat := 256.

Record syscall_event := {
  ts_ns : Z;
  pid : Z;
  ppid : Z;
  uid : Z;
  gid : Z;
  syscall_ret : Z;
  comm : list byte;
  filename : list byte
}.

(** Member offsets of [struct syscall_event]: every member is naturally
    aligned, so the members are laid out back to back, and the struct is
    padded from 300 to 304 bytes for the alignment of [ts_ns]. *)
Definition off_ts_ns : nat := 0.
Definition off_pid : nat := 8.
Definition off_ppid : nat := 12.
Definition off_uid : nat := 16.
Definition off_gid : nat := 20.
Definition off_syscall_ret : nat := 24.
Definition off_comm : nat := 28.
Definition off_filename : nat := 44.
Definition sizeof_syscall_event : nat := 304.

(** Reading the members through a [struct syscall_event *]. *)
Definition read_event (data : list byte) : syscall_event :=
  {| ts_ns := le_value (load off_ts_ns 8 data);
     pid := le_value (load off_pid 4 data);
     ppid := le_value (load off_ppid 4 data);
     uid := le_value (load off_uid 4 data);
     gid := le_value (load off_gid 4 data);
     syscall_ret := to_s32 (le_value (load off_syscall_ret 4 data));
     comm := load off_comm TASK_COMM_LEN data;
     filename := load off_filename MAX_PATH_LEN data |}.

(** ** The kernel side the capture agent runs against

    The helpers below are called by the BPF program but are not part of
    the repository: they are the restricted execution environment of the
    specification.  Each is modelled from what the specification says of
    it, made precise with what the Linux helper of that name does. *)

Definition EINTR : Z := 4.
Definition EFAULT : Z := 14.
Definition EINVAL : Z := 22.

Module Kernel.

(** Modelled from the spec: the calling task's identity, credentials and
    ancestry ([struct task_struct] comes from the generated [vmlinux.h],
    which is not in the repository).  Task pointers are kernel
    addresses; [real_parent] is the process the task is a child of (the
    reaper after reparenting), [parent] the recipient of SIGCHLD (the
    tracer while the task is traced). *)
Record task_struct := {
  pid : Z;
  tgid : Z;
  real_parent : Z;
  parent : Z;
  comm : list byte;
  uid : Z;
  gid : Z
}.

(** Modelled from the spec: what the syscall-entry context gives access
    to, the monotonic clock, the calling task and the memory of the
    caller, which is untrusted and may be unmapped. *)
Record state := {
  clock : Z;                    (* CLOCK_MONOTONIC, in nanoseconds *)
  current : Z;                  (* the task that entered the syscall *)
  tasks : gmap Z task_struct;   (* readable task structs, by address *)
  user : gmap Z byte            (* mapped user memory of [current] *)
}.

(** Modelled from the spec: the monotonic nanosecond counter, unsigned
    64-bit (kernel helper [bpf_ktime_get_ns]). *)
Definition bpf_ktime_get_ns (k : state) : Z := to_u64 (clock k).

(** Modelled from the spec: the current task's identity (kernel helper
    [bpf_get_current_pid_tgid]: [(u64) task->tgid << 32 | task->pid],
    [-EINVAL] without a task). *)
Definition bpf_get_current_pid_tgid (k : state) : Z :=
  match tasks k !! current k with
  | Some task => to_u64 (Z.lor (Z.shiftl (to_u64 (tgid task)) 32) (to_u64 (pid task)))
  | None => to_u64 (- EINVAL)
  end.

(** Modelled from the spec: the credentials of the calling task (kernel
    helper [bpf_get_current_uid_gid]: [(u64) gid << 32 | uid]). *)
Definition bpf_get_current_uid_gid (k : state) : Z :=
  match tasks k !! current k with
  | Some task => to_u64 (Z.lor (Z.shiftl (to_u32 (gid task)) 32) (to_u32 (uid task)))
  | None => to_u64 (- EINVAL)
  end.

(** Modelled from the spec: the calling task (kernel helper
    [bpf_get_current_task_btf]). *)
Definition bpf_get_current_task_btf (k : state) : Z := current k.

(** Modelled from the spec: the lookup of a member of a task through a
    kernel pointer (libbpf macro [BPF_CORE_READ (p, member)]: a
    [bpf_probe_read_kernel] of the member, which leaves zero in the
    destination when [p] is not readable). *)
Definition BPF_CORE_READ (k : state) (p : Z) (member : task_struct -> Z) : Z :=
  match tasks k !! p with
  | Some task => member task
  | None => 0
  end.

(** Modelled from the spec: a bounded copy of the short name (kernel
    function [strscpy_pad (dst, src, size)]: at most [size - 1] bytes of
    the string, then zeros up to [size]). *)
Definition strscpy_pad (src : list byte) (size : nat) : list byte :=
  let s := take (size - 1)%nat (c_str src) in
  s ++ replicate (size - length s)%nat x00.

(** Modelled from the spec: the kernel-provided short name of the
    current task, always safe and bounded (kernel helper
    [bpf_get_current_comm (m + dst, size)]: [strscpy_pad] of
    [task->comm], or [size] zero bytes and [-EINVAL] without a task). *)
Definition bpf_get_current_comm (k : state) (dst size : nat) (m : list byte)
  : list byte * Z :=
  match tasks k !! current k with
  | Some task => (store dst (strscpy_pad (comm task) size) m, 0)
  | None => (store dst (replicate size x00) m, - EINVAL)
  end.

(** Modelled from the spec: the read of a string from the untrusted
    pointer (kernel function [strncpy_from_user]).  The result is the
    bytes stored at the destination, the terminator included when it is
    met within [count] bytes; [None] is [-EFAULT], an unmapped byte
    before the copy was over. *)
Fixpoint strncpy_from_user (u : gmap Z byte) (src : Z) (count : nat)
  : option (list byte) :=
  match count with
  | O => Some []
  | S count' =>
      match u !! src with
      | None => None
      | Some b =>
          if Byte.eqb b x00 then Some [b]
          else match strncpy_from_user u (src + 1) count' with
               | None => None
               | Some bs => Some (b :: bs)
               end
      end
  end.

(** Modelled from the spec: truncation of a string that is too long
    (kernel function [strncpy_from_user_nofault]: a copy that filled all
    [count] bytes without meeting the terminator gets its last byte
    overwritten by one). *)
Definition strncpy_from_user_nofault (u : gmap Z byte) (src : Z) (count : nat)
  : option (list byte) :=
  match strncpy_from_user u src count with
  | None => None
  | Some bs =>
      if (length (c_str bs) =? length bs)%nat
      then Some (<[(count - 1)%nat := x00]> bs)
      else Some bs
  end.

(** Modelled from the spec: the bounded copy of a string from the
    untrusted user-space pointer, safe against invalid or unmapped
    pointers and always producing a bounded, terminated string (kernel
    helper [bpf_probe_read_user_str (m + dst, size, src)], which
    [bpf_core_read_user_str] expands to).  On failure the whole
    destination is zeroed and a negative errno returned; on success the
    number of bytes written is returned, terminator included, and the
    destination is not padded: the kernel may zero a few bytes after
    the terminator, up to the end of the machine word, which no
    statement here depends on. *)
Definition bpf_probe_read_user_str (k : state) (dst size : nat) (src : Z)
    (m : list byte) : list byte * Z :=
  match strncpy_from_user_nofault (user k) src size with
  | Some bs => (store dst bs m, Z.of_nat (length bs))
  | None => (store dst (replicate size x00) m, - EFAULT)
  end.

End Kernel.

(** *** BPF_MAP_TYPE_RINGBUF

    The Ring Channel of the specification: reserve and commit on the
    producer side, drain on the consumer side.  The kernel code behind
    the two helpers is not in the repository. *)

Definition BPF_RINGBUF_HDR_SZ : Z := 8.

Definition round_up (x a : Z) : Z := (x + a - 1) / a * a.

(** Modelled from the spec: a record between the consumer and the
    producer position; its header carries the busy bit until the
    producer commits it. *)
Record rb_record := {
  busy : bool;
  payload : list byte
}.

(** Modelled from the spec: the bounded byte ring, of fixed capacity in
    bytes. *)
Record ringbuf := {
  max_entries : Z;              (* size of the data area, in bytes *)
  consumer_pos : Z;
  producer_pos : Z;
  records : list rb_record;     (* oldest first *)
  stale : Z -> byte             (* what the data pages hold, by offset *)
}.

(** Modelled from the spec: the region a reservation hands out.  The
    ring does not clear it: it is the data pages as they are, zero on
    the first lap of the ring, the bytes of an earlier record
    afterwards. *)
Definition slot_content (rb : ringbuf) (size : nat) : list byte :=
  (fun i : nat => stale rb ((producer_pos rb + BPF_RINGBUF_HDR_SZ + Z.of_nat i)
                            mod max_entries rb)) <$> seq 0 size.

Definition rb_len (size : nat) : Z :=
  round_up (Z.of_nat size + BPF_RINGBUF_HDR_SZ) 8.

(** Modelled from the spec: [reserve (size)], an exclusive write region
    or failure if full (kernel helper [bpf_ringbuf_reserve]).  The
    record, an 8-byte header and the payload rounded up to 8 bytes, is
    appended busy and the program gets a pointer to its payload (here:
    its index among [records]); [None] is the NULL returned when the
    producer would run more than [max_entries - 1] bytes ahead of the
    consumer. *)
Definition bpf_ringbuf_reserve (size : nat) (rb : ringbuf) : option (nat * ringbuf) :=
  let len := rb_len size in
  if max_entries rb <? len then None
  else
    let new_prod_pos := producer_pos rb + len in
    if max_entries rb - 1 <? new_prod_pos - consumer_pos rb then None
    else Some (length (records rb),
               {| max_entries := max_entries rb;
                  consumer_pos := consumer_pos rb;
                  producer_pos := new_prod_pos;
                  records := records rb ++ [{| busy := true; payload := slot_content rb size |}];
                  stale := stale rb |}).

Definition with_records (rb : ringbuf) (rs : list rb_record) : ringbuf :=
  {| max_entries := max_entries rb;
     consumer_pos := consumer_pos rb;
     producer_pos := producer_pos rb;
     records := rs;
     stale := stale rb |}.

(** A write through the pointer [e] returned by the reservation. *)
Definition rb_write (e : nat) (f : list byte -> list byte) (rb : ringbuf) : ringbuf :=
  with_records rb
    (alter (fun r => {| busy := busy r; payload := f (payload r) |}) e (records rb)).

(** Modelled from the spec: [commit (region)], which makes the region
    visible to the consumer (kernel helper [bpf_ringbuf_submit (e, 0)]:
    it clears the busy bit). *)
Definition bpf_ringbuf_submit (e : nat) (rb : ringbuf) : ringbuf :=
  with_records rb
    (alter (fun r => {| busy := false; payload := payload r |}) e (records rb)).

(** Modelled from the spec: what the consumer can see of the ring, the
    records up to the first busy one. *)
Fixpoint committed_prefix (rs : list rb_record) : list rb_record :=
  match rs with
  | [] => []
  | r :: rs' => if busy r then [] else r :: committed_prefix rs'
  end.

Definition visible (rb : ringbuf) : list (list byte) :=
  payload <$> committed_prefix (records rb).

(** ** syscall_monitor.bpf.c: the capture agent *)

(** The map [events]: a ring buffer of [1 << 24] bytes. *)
Definition events_max_entries : Z := Z.shiftl 1 24.

Definition events : ringbuf :=
  {| max_entries := events_max_entries;
     consumer_pos := 0;
     producer_pos := 0;
     records := [];
     stale := fun _ => x00 |}.

Record trace_event_raw_sys_enter := {
  args : list Z
}.

(** The program threads the ring through its statements; next to the
    current ring it keeps every state the ring went through, so that
    what a reader could observe half-way is part of the model. *)
Definition prog (A : Type) : Type := ringbuf -> A * ringbuf * list ringbuf.

Definition prog_ret {A} (a : A) : prog A := fun rb => (a, rb, []).

Definition prog_bind {A B} (m : prog A) (f : A -> prog B) : prog B :=
  fun rb =>
    let '(a, rb1, h1) := m rb in
    let '(b, rb2, h2) := f a rb1 in
    (b, rb2, h1 ++ h2).

Definition effect (f : ringbuf -> ringbuf) : prog unit :=
  fun rb => (tt, f rb, [f rb]).

#[global] Instance prog_mret : MRet prog := @prog_ret.
#[global] Instance prog_mbind : MBind prog := fun A B f m => prog_bind m f.

Definition reserve (size : nat) : prog (option nat) :=
  fun rb =>
    match bpf_ringbuf_reserve size rb with
    | None => (None, rb, [])
    | Some (e, rb') => (Some e, rb', [rb'])
    end.

Definition set_u64 (e off : nat) (v : Z) : prog unit :=
  effect (rb_write e (store off (le_bytes 8 v))).

Definition set_u32 (e off : nat) (v : Z) : prog unit :=
  effect (rb_write e (store off (le_bytes 4 v))).

(** A helper that fills memory behind [e]; its return value is dropped,
    as in the source. *)
Definition call_helper (e : nat) (h : list byte -> list byte * Z) : prog unit :=
  effect (rb_write e (fun m => (h m).1)).

Definition get_ppid_tgid (k : Kernel.state) : Z :=
  let task := Kernel.bpf_get_current_task_btf k in
  let parent := Kernel.BPF_CORE_READ k task Kernel.real_parent in
  to_u32 (Kernel.BPF_CORE_READ k parent Kernel.tgid).

Definition handle_execve (k : Kernel.state) (ctx : trace_event_raw_sys_enter)
  : prog Z :=
  e ← reserve sizeof_syscall_event;
  match e with
  | None => mret 0
  | Some e =>
      set_u64 e off_ts_ns (Kernel.bpf_ktime_get_ns k);;
      let pid_tgid := Kernel.bpf_get_current_pid_tgid k in
      set_u32 e off_pid (to_u32 (Z.shiftr pid_tgid 32));;
      let uid_gid := Kernel.bpf_get_current_uid_gid k in
      set_u32 e off_uid (to_u32 uid_gid);;
      set_u32 e off_gid (to_u32 (Z.shiftr uid_gid 32));;
      set_u32 e off_ppid (get_ppid_tgid k);;
      call_helper e (Kernel.bpf_get_current_comm k off_comm TASK_COMM_LEN);;
      let filename := default 0 (args ctx !! 0%nat) in
      call_helper e (Kernel.bpf_probe_read_user_str k off_filename MAX_PATH_LEN filename);;
      effect (bpf_ringbuf_submit e);;
      mret 0
  end.

(** ** syscall_loader.c: the consumer loop *)

(** *** What the process prints *)

Definition nl : string := String "010"%char EmptyString.
Definition dq : string := String "034"%char EmptyString.

(** [%u] and [%llu]; [%d]. *)
Definition fmt_u (n : Z) : string := NilZero.string_of_uint (N.to_uint (Z.to_N n)).
Definition fmt_d (n : Z) : string := NilZero.string_of_int (Z.to_int n).

(** [%s] of a pointer [data + off]: the bytes up to the first NUL. *)
Definition fmt_s (off : nat) (data : list byte) : string :=
  string_of_list_byte (c_str (drop off data)).

Definition json_key (name : string) : string := (dq ++ name ++ dq ++ ":")%string.
Definition json_str (s : string) : string := (dq ++ s ++ dq)%string.

(** *** The process and the libbpf calls it makes *)

Inductive libbpf_call :=
  | call_open                 (* syscall_monitor_bpf__open *)
  | call_load                 (* syscall_monitor_bpf__load *)
  | call_attach               (* syscall_monitor_bpf__attach *)
  | call_ring_buffer_new      (* ring_buffer__new *)
  | call_ring_buffer_poll     (* ring_buffer__poll *)
  | call_ring_buffer_free     (* ring_buffer__free *)
  | call_destroy.             (* syscall_monitor_bpf__destroy *)

Record proc := {
  stop : bool;                     (* the flag [handle_sig] sets *)
  stdout : string;
  stderr : string;
  calls : list libbpf_call;        (* the libbpf calls made so far *)
  ring : ringbuf;                  (* the map [events] *)
  committed : list (list byte);    (* ghost: every record submitted so far *)
  emitted : list (list byte)       (* ghost: every record given to the callback *)
}.

Definition set_stop (p : proc) : proc :=
  {| stop := true; stdout := stdout p; stderr := stderr p; calls := calls p;
     ring := ring p; committed := committed p; emitted := emitted p |}.

Definition printf (s : string) (p : proc) : proc :=
  {| stop := stop p; stdout := (stdout p ++ s)%string; stderr := stderr p;
     calls := calls p; ring := ring p; committed := committed p;
     emitted := emitted p |}.

Definition fprintf_stderr (s : string) (p : proc) : proc :=
  {| stop := stop p; stdout := stdout p; stderr := (stderr p ++ s)%string;
     calls := calls p; ring := ring p; committed := committed p;
     emitted := emitted p |}.

Definition called (c : libbpf_call) (p : proc) : proc :=
  {| stop := stop p; stdout := stdout p; stderr := stderr p;
     calls := calls p ++ [c]; ring := ring p; committed := committed p;
     emitted := emitted p |}.

Definition set_ring (rb : ringbuf) (sub : list (list byte)) (p : proc) : proc :=
  {| stop := stop p; stdout := stdout p; stderr := stderr p; calls := calls p;
     ring := rb; committed := committed p ++ sub; emitted := emitted p |}.

Definition sampled (data : list byte) (p : proc) : proc :=
  {| stop := stop p; stdout := stdout p; stderr := stderr p; calls := calls p;
     ring := ring p; committed := committed p; emitted := emitted p ++ [data] |}.

Definition handle_sig (sig : Z) (p : proc) : proc := set_stop p.

Definition SIGINT : Z := 2.
Definition SIGTERM : Z := 15.

(** The line [handle_event] prints for the record at [data]. *)
Definition event_line (data : list byte) : string :=
  let e := read_event data in
  ("{" ++ json_key "ts_ns" ++ fmt_u (ts_ns e)
   ++ "," ++ json_key "pid" ++ fmt_u (pid e)
   ++ "," ++ json_key "ppid" ++ fmt_u (ppid e)
   ++ "," ++ json_key "uid" ++ fmt_u (uid e)
   ++ "," ++ json_key "gid" ++ fmt_u (gid e)
   ++ "," ++ json_key "comm" ++ json_str (fmt_s off_comm data)
   ++ "," ++ json_key "filename" ++ json_str (fmt_s off_filename data)
   ++ "," ++ json_key "syscall" ++ json_str "execve" ++ "}" ++ nl)%string.

Definition handle_event (data : list byte) (p : proc) : proc * Z :=
  (printf (event_line data) p, 0).

(** Modelled from the spec: what a call of [poll (timeout)] can meet.  It
    blocks up to the timeout and returns as soon as records are
    available, or empty on timeout ([PollReady]); it is interrupted by
    the stop signal ([PollEINTR]); or it fails ([PollError]). *)
Inductive poll_outcome :=
  | PollReady                 (* epoll_wait returns: ready, or timed out *)
  | PollEINTR                 (* SIGINT or SIGTERM arrives during epoll_wait *)
  | PollError (errno : Z).    (* epoll_wait fails with [errno] *)

(** Modelled from the spec: what the outside does during one turn of the
    loop.  The capture agent fires for [captures] and, if [signal],
    SIGINT or SIGTERM is delivered, all before the loop condition is
    read; [poll] is what the next [ring_buffer__poll] meets. *)
Record round := {
  captures : list (Kernel.state * trace_event_raw_sys_enter);
  signal : bool;
  poll : poll_outcome
}.

(** Modelled from the spec: the outcome of the setup steps (libbpf and
    the generated skeleton are not in the repository) and the rounds of
    the loop. *)
Record world := {
  open_ok : bool;       (* [syscall_monitor_bpf__open] returns a skeleton *)
  load_ret : Z;         (* what [syscall_monitor_bpf__load] returns *)
  attach_ret : Z;       (* what [syscall_monitor_bpf__attach] returns *)
  rb_new_ok : bool;     (* [ring_buffer__new] returns a ring buffer *)
  rounds : list round
}.

(** One firing of the capture agent on the process's map. *)
Definition capture (kc : Kernel.state * trace_event_raw_sys_enter) (p : proc) : proc :=
  let rb' := (handle_execve kc.1 kc.2 (ring p)).1.2 in
  set_ring rb' (payload <$> drop (length (records (ring p))) (records rb')) p.

(** Modelled from the spec: the drain inside [poll], which on each
    available record invokes the decode-and-emit step before advancing
    (libbpf's [ringbuf_process_ring]: every record up to the first busy
    one is handed to the callback; a negative return of the callback
    ends the drain with that value). *)
Fixpoint ringbuf_process_ring (cb : list byte -> proc -> proc * Z)
    (rs : list rb_record) (cons_pos cnt : Z) (p : proc)
  : proc * list rb_record * Z * Z :=
  match rs with
  | [] => (p, [], cons_pos, cnt)
  | r :: rs' =>
      if busy r then (p, rs, cons_pos, cnt)
      else
        let cons_pos := cons_pos + rb_len (length (payload r)) in
        let '(p', err) := cb (payload r) (sampled (payload r) p) in
        if err <? 0 then (p', rs', cons_pos, err)
        else ringbuf_process_ring cb rs' cons_pos (cnt + 1) p'
  end.

(** Modelled from the spec: [poll (timeout)] on the consumer side
    (libbpf's [ring_buffer__poll (rb, timeout_ms)]): the number of
    records consumed, or a negative errno, [-EINTR] when a signal
    handler ran during the wait. *)
Definition ring_buffer__poll (cb : list byte -> proc -> proc * Z) (o : poll_outcome)
    (p : proc) : proc * Z :=
  let p := called call_ring_buffer_poll p in
  match o with
  | PollReady =>
      let rb := ring p in
      let '(p', rest, cons_pos, res) :=
        ringbuf_process_ring cb (records rb) (consumer_pos rb) 0 p in
      (set_ring {| max_entries := max_entries rb;
                   consumer_pos := cons_pos;
                   producer_pos := producer_pos rb;
                   records := rest;
                   stale := stale rb |} [] p', res)
  | PollEINTR => (handle_sig SIGINT p, - EINTR)
  | PollError errno => (p, - errno)
  end.

(** The [while (!stop)] loop: the process as the loop leaves it, with
    [err] as the loop left it, or [None] when the rounds are used up
    with the loop still running. *)
Fixpoint poll_loop (rs : list round) (err : Z) (p : proc) : proc * option Z :=
  match rs with
  | [] => (p, None)
  | r :: rs' =>
      let p := foldl (fun p kc => capture kc p) p (captures r) in
      let p := if signal r then handle_sig SIGTERM p else p in
      if stop p then (p, Some err)
      else
        let '(p, err) := ring_buffer__poll handle_event (poll r) p in
        if err =? - EINTR then (p, Some err)
        else if err <? 0 then
          (fprintf_stderr ("ring_buffer__poll error: " ++ fmt_d err ++ nl) p, Some err)
        else poll_loop rs' err p
  end.

Definition cleanup (err : Z) (p : proc) : proc * option Z :=
  let p := called call_ring_buffer_free p in
  let p := called call_destroy p in
  (p, Some (if err <? 0 then 1 else 0)).

Definition start : proc :=
  {| stop := false; stdout := EmptyString; stderr := EmptyString; calls := [];
     ring := events; committed := []; emitted := [] |}.

(** [main]: the final process and its exit status ([None]: still in the
    loop when the rounds end). *)
Definition main (w : world) : proc * option Z :=
  let p := called call_open start in
  if negb (open_ok w) then
    (fprintf_stderr ("failed to open BPF skeleton" ++ nl) p, Some 1)
  else
    let p := called call_load p in
    let err := load_ret w in
    if negb (err =? 0) then
      cleanup err (fprintf_stderr ("failed to load BPF skeleton: " ++ fmt_d err ++ nl) p)
    else
      let p := called call_attach p in
      let err := attach_ret w in
      if negb (err =? 0) then
        cleanup err (fprintf_stderr ("failed to attach BPF programs: " ++ fmt_d err ++ nl) p)
      else
        let p := called call_ring_buffer_new p in
        if negb (rb_new_ok w) then
          let p := fprintf_stderr ("failed to create ring buffer" ++ nl) p in
          let err := 1 in
          cleanup err p
        else
          match poll_loop (rounds w) err p with
          | (p, None) => (p, None)
          | (p, Some err) => cleanup err p
          end.

(** ** Views of a run used in the statements *)

(** The successive contents of the reserved slot while [handle_execve]
    runs, from the slot as reserved to the slot as submitted. *)
Definition slot_states (k : Kernel.state) (ctx : trace_event_raw_sys_enter)
    (m0 : list byte) : list (list byte) :=
  let m1 := store off_ts_ns (le_bytes 8 (Kernel.bpf_ktime_get_ns k)) m0 in
  let m2 := store off_pid (le_bytes 4 (to_u32 (Z.shiftr (Kernel.bpf_get_current_pid_tgid k) 32))) m1 in
  let m3 := store off_uid (le_bytes 4 (to_u32 (Kernel.bpf_get_current_uid_gid k))) m2 in
  let m4 := store off_gid (le_bytes 4 (to_u32 (Z.shiftr (Kernel.bpf_get_current_uid_gid k) 32))) m3 in
  let m5 := store off_ppid (le_bytes 4 (get_ppid_tgid k)) m4 in
  let m6 := (Kernel.bpf_get_current_comm k off_comm TASK_COMM_LEN m5).1 in
  let m7 := (Kernel.bpf_probe_read_user_str k off_filename MAX_PATH_LEN
               (default 0 (args ctx !! 0%nat)) m6).1 in
  [m0; m1; m2; m3; m4; m5; m6; m7].

Definition populate (k : Kernel.state) (ctx : trace_event_raw_sys_enter)
    (m0 : list byte) : list byte :=
  default m0 (last (slot_states k ctx m0)).

(** The ring [rb1] with the records [old] followed by one more. *)
Definition slot_in (rb1 : ringbuf) (old : list rb_record) (b : bool) (m : list byte)
  : ringbuf :=
  with_records rb1 (old ++ [{| busy := b; payload := m |}]).

(** The bytes the two string helpers store. *)
Definition comm_bytes (k : Kernel.state) (size : nat) : list byte :=
  match Kernel.tasks k !! Kernel.current k with
  | Some task => Kernel.strscpy_pad (Kernel.comm task) size
  | None => replicate size x00
  end.

Definition path_bytes (k : Kernel.state) (src : Z) (size : nat) : list byte :=
  match Kernel.strncpy_from_user_nofault (Kernel.user k) src size with
  | Some bs => bs
  | None => replicate size x00
  end.

(** The ring right after a successful reservation of one record. *)
Definition reserved_in (rb : ringbuf) : ringbuf :=
  {| max_entries := max_entries rb;
     consumer_pos := consumer_pos rb;
     producer_pos := producer_pos rb + rb_len sizeof_syscall_event;
     records := records rb ++ [{| busy := true;
                                  payload := slot_content rb sizeof_syscall_event |}];
     stale := stale rb |}.

(** The payload behind the pointer [e] in a state of the ring. *)
Definition slot_of (e : nat) (rb : ringbuf) : list byte :=
  default [] (payload <$> records rb !! e).

Definition agree_outside (lo hi : nat) (m m' : list byte) : Prop :=
  length m' = length m /\
  forall i : nat, ~ (lo <= i < hi)%nat -> m' !! i = m !! i.

(** The three components of a run. *)
Definition returned {A} (r : A * ringbuf * list ringbuf) : A := r.1.1.
Definition final {A} (r : A * ringbuf * list ringbuf) : ringbuf := r.1.2.
Definition history {A} (r : A * ringbuf * list ringbuf) : list ringbuf := r.2.

(** What has been printed for the records [ds]. *)
Fixpoint lines_of (ds : list (list byte)) : string :=
  match ds with
  | [] => EmptyString
  | d :: ds' => (event_line d ++ lines_of ds')%string
  end.

(** The number of line feeds in a text. *)
Fixpoint line_feeds (s : string) : nat :=
  match s with
  | EmptyString => 0
  | String c s' => ((if Ascii.eqb c "010"%char then 1 else 0) + line_feeds s')%nat
  end.

Definition quiet (q : round) : Prop := signal q = false /\ poll q = PollReady.

Definition setup_ok (w : world) : Prop :=
  open_ok w = true /\ load_ret w = 0 /\ attach_ret w = 0 /\ rb_new_ok w = true.

(** What holds of the process between two statements of the loop: every
    submitted record is either emitted or still in the ring, no record
    in the ring is busy, and the standard output is one [event_line]
    per emitted record, in order. *)
Definition loop_inv (p : proc) : Prop :=
  committed p = emitted p ++ (payload <$> records (ring p)) /\
  Forall (fun r => busy r = false) (records (ring p)) /\
  stdout p = lines_of (emitted p).

(** The process after the callback has been run on the records [ds]. *)
Definition emit_all (ds : list (list byte)) (p : proc) : proc :=
  {| stop := stop p; stdout := (stdout p ++ lines_of ds)%string; stderr := stderr p;
     calls := calls p; ring := ring p; committed := committed p;
     emitted := emitted p ++ ds |}.

(** The process when the loop is entered. *)
Definition loop_entry : proc :=
  called call_ring_buffer_new
    (called call_attach
       (called call_load
          (called call_open start))).

(** The world cut after the rounds [rs]. *)
Definition upto (w : world) (rs : list round) : world :=
  {| open_ok := open_ok w; load_ret := load_ret w; attach_ret := attach_ret w;
     rb_new_ok := rb_new_ok w; rounds := rs |}.

(** ** Sample states *)

Definition padded (s : string) (n : nat) : list byte :=
  list_byte_of_string s ++ replicate (n - String.length s) x00.

Definition sh_task : Kernel.task_struct :=
  {| Kernel.pid := 100; Kernel.tgid := 100;
     Kernel.real_parent := 4096; Kernel.parent := 12288;
     Kernel.comm := padded "sh" 16; Kernel.uid := 0; Kernel.gid := 0 |}.

Definition init_task : Kernel.task_struct :=
  {| Kernel.pid := 1; Kernel.tgid := 1;
     Kernel.real_parent := 4096; Kernel.parent := 4096;
     Kernel.comm := padded "init" 16; Kernel.uid := 0; Kernel.gid := 0 |}.

Definition tracer_task : Kernel.task_struct :=
  {| Kernel.pid := 77; Kernel.tgid := 77;
     Kernel.real_parent := 4096; Kernel.parent := 4096;
     Kernel.comm := padded "strace" 16; Kernel.uid := 0; Kernel.gid := 0 |}.

(** User memory holding the string [s] and its terminator at [addr]. *)
Definition user_string (addr : Z) (s : list byte) : gmap Z byte :=
  list_to_map (zip (seqZ addr (Z.of_nat (length s) + 1)) (s ++ [x00])).

(** [sh] (pid 100, child of pid 1, traced by pid 77) enters
    [execve ("/bin/sh", ...)]. *)
Definition k_sh : Kernel.state :=
  {| Kernel.clock := 12345;
     Kernel.current := 8192;
     Kernel.tasks := {[ 8192 := sh_task; 4096 := init_task; 12288 := tracer_task ]};
     Kernel.user := user_string 70000 (list_byte_of_string "/bin/sh") |}.

Definition ctx_sh : trace_event_raw_sys_enter := {| args := [70000; 0; 0; 0; 0; 0] |}.

(** The same call with a pointer into unmapped memory. *)
Definition ctx_wild : trace_event_raw_sys_enter := {| args := [1; 0; 0; 0; 0; 0] |}.

(** The ring on a later lap: the data pages are full of old bytes. *)
Definition events_later : ringbuf :=
  {| max_entries := events_max_entries;
     consumer_pos := 0;
     producer_pos := 0;
     records := [];
     stale := fun _ => xff |}.

(** The ring with 53773 records waiting: 312 more bytes do not fit. *)
Definition events_full : ringbuf :=
  {| max_entries := events_max_entries;
     consumer_pos := 0;
     producer_pos := 53773 * 312;
     records := replicate (Z.to_nat 53773)
                  {| busy := false; payload := replicate sizeof_syscall_event x00 |};
     stale := fun _ => x00 |}.

Definition round_capture : round :=
  {| captures := [(k_sh, ctx_sh)]; signal := false; poll := PollReady |}.

(** Setup succeeds; one record is captured and drained; then SIGINT
    arrives while the loader waits in [ring_buffer__poll]. *)
Definition w_interrupted : world :=
  {| open_ok := true; load_ret := 0; attach_ret := 0; rb_new_ok := true;
     rounds := [round_capture;
                {| captures := []; signal := false; poll := PollEINTR |}] |}.

(** Setup succeeds; one record is captured and drained; a second one is
    captured and then SIGTERM arrives, both before the loop condition
    is read again. *)
Definition w_late_record : world :=
  {| open_ok := true; load_ret := 0; attach_ret := 0; rb_new_ok := true;
     rounds := [round_capture;
                {| captures := [(k_sh, ctx_sh)]; signal := true; poll := PollReady |}] |}.

(** Setup succeeds; one record is captured and drained; a second one is
    captured and then SIGINT arrives while the loader waits in
    [ring_buffer__poll]. *)
Definition w_sig_in_poll : world :=
  {| open_ok := true; load_ret := 0; attach_ret := 0; rb_new_ok := true;
     rounds := [round_capture;
                {| captures := [(k_sh, ctx_sh)]; signal := false; poll := PollEINTR |}] |}.

(** [ring_buffer__new] fails. *)
Definition w_no_ring : world :=
  {| open_ok := true; load_ret := 0; attach_ret := 0; rb_new_ok := false;
     rounds := [] |}.

(** [execve] of a path with a line feed in it: "/tmp/a", LF, "b". *)
Definition k_lf : Kernel.state :=
  {| Kernel.clock := 12345;
     Kernel.current := 8192;
     Kernel.tasks := {[ 8192 := sh_task; 4096 := init_task; 12288 := tracer_task ]};
     Kernel.user := user_string 70000
                      (list_byte_of_string "/tmp/a" ++ [x0a] ++ list_byte_of_string "b") |}.

Definition w_line_feed : world :=
  {| open_ok := true; load_ret := 0; attach_ret := 0; rb_new_ok := true;
     rounds := [{| captures := [(k_lf, ctx_sh)]; signal := false; poll := PollReady |};
                {| captures := []; signal := true; poll := PollReady |}] |}.

(** ** Further views of a run *)

(** The user memory at [src], byte by byte ([None]: not mapped). *)
Fixpoint user_bytes (u : gmap Z byte) (src : Z) (n : nat) : list (option byte) :=
  match n with
  | O => []
  | S n' => u !! src :: user_bytes u (src + 1) n'
  end.

(** The text printed for the record that a firing of the agent in the
    kernel state [k] with the context [ctx] submits. *)
Definition line_for (k : Kernel.state) (ctx : trace_event_raw_sys_enter) : string :=
  ("{" ++ json_key "ts_ns" ++ fmt_u (Kernel.bpf_ktime_get_ns k)
   ++ "," ++ json_key "pid"
   ++ fmt_u (to_u32 (Z.shiftr (Kernel.bpf_get_current_pid_tgid k) 32))
   ++ "," ++ json_key "ppid" ++ fmt_u (get_ppid_tgid k)
   ++ "," ++ json_key "uid" ++ fmt_u (to_u32 (Kernel.bpf_get_current_uid_gid k))
   ++ "," ++ json_key "gid"
   ++ fmt_u (to_u32 (Z.shiftr (Kernel.bpf_get_current_uid_gid k) 32))
   ++ "," ++ json_key "comm"
   ++ json_str (string_of_list_byte (c_str (comm_bytes k TASK_COMM_LEN)))
   ++ "," ++ json_key "filename"
   ++ json_str (string_of_list_byte
                  (c_str (path_bytes k (default 0 (args ctx !! 0%nat)) MAX_PATH_LEN)))
   ++ "," ++ json_key "syscall" ++ json_str "execve" ++ "}" ++ nl)%string.




(** The number of rounds before the first one that delivers the stop
    signal. *)
Fixpoint rounds_before_signal (rs : list round) : nat :=
  match rs with
  | [] => 0
  | r :: rs' => if signal r then 0 else S (rounds_before_signal rs')
  end.

(** The number of firings of the agent in the rounds [rs]. *)
Fixpoint attempts (rs : list round) : nat :=
  match rs with
  | [] => 0
  | r :: rs' => (length (captures r) + attempts rs')%nat
  end.

(** The firings of the agent in the rounds [rs], in order. *)
Fixpoint firings (rs : list round) : list (Kernel.state * trace_event_raw_sys_enter) :=
  match rs with
  | [] => []
  | r :: rs' => captures r ++ firings rs'
  end.

(** One line of [line_for] for each of the firings [fs]. *)
Fixpoint lines_for (fs : list (Kernel.state * trace_event_raw_sys_enter)) : string :=
  match fs with
  | [] => EmptyString
  | kc :: fs' => (line_for kc.1 kc.2 ++ lines_for fs')%string
  end.

(** The setup steps of [main], in order, and the two of its cleanup
    label. *)
Definition setup_calls : list libbpf_call :=
  [call_open; call_load; call_attach; call_ring_buffer_new].

Definition release_calls : list libbpf_call :=
  [call_ring_buffer_free; call_destroy].

(** ** Further sample states *)

(** A thread (tid 101) of the process 100, run by uid 1000, gid 50. *)
Definition thread_task : Kernel.task_struct :=
  {| Kernel.pid := 101; Kernel.tgid := 100;
     Kernel.real_parent := 4096; Kernel.parent := 4096;
     Kernel.comm := padded "worker" 16; Kernel.uid := 1000; Kernel.gid := 50 |}.

Definition k_thread : Kernel.state :=
  {| Kernel.clock := 777;
     Kernel.current := 8192;
     Kernel.tasks := {[ 8192 := thread_task; 4096 := init_task ]};
     Kernel.user := user_string 70000 (list_byte_of_string "/bin/true") |}.

(** [syscall_monitor_bpf__open] fails. *)
Definition w_no_skeleton : world :=
  {| open_ok := false; load_ret := 0; attach_ret := 0; rb_new_ok := true;
     rounds := [round_capture] |}.

(** [syscall_monitor_bpf__load] fails with [-EPERM]. *)
Definition w_load_fails : world :=
  {| open_ok := true; load_ret := -1; attach_ret := 0; rb_new_ok := true;
     rounds := [round_capture] |}.

(** [syscall_monitor_bpf__attach] fails with [-ENOENT]. *)
Definition w_attach_fails : world :=
  {| open_ok := true; load_ret := 0; attach_ret := -2; rb_new_ok := true;
     rounds := [round_capture] |}.

(** Setup succeeds; one record is captured and drained; the second
    poll fails with [EBADF]. *)
Definition w_poll_fails : world :=
  {| open_ok := true; load_ret := 0; attach_ret := 0; rb_new_ok := true;
     rounds := [round_capture;
                {| captures := []; signal := false; poll := PollError 9 |}] |}.

(** Setup succeeds and no signal arrives in three rounds, two of them
    with a record. *)
Definition w_quiet : world :=
  {| open_ok := true; load_ret := 0; attach_ret := 0; rb_new_ok := true;
     rounds := [round_capture;
                {| captures := []; signal := false; poll := PollReady |};
                round_capture] |}.

(** * Properties *)

Lemma Z_of_byte_range b : 0 <= Z_of_byte b < 256.
Proof.
  unfold Z_of_byte. pose proof (Byte.to_N_bounded b) as H. lia.
Qed.

Lemma Z_of_byte_of_Z z : Z_of_byte (byte_of_Z z) = z mod 256.
Proof.
  unfold Z_of_byte, byte_of_Z.
  assert (Hr : 0 <= z mod 256 < 256) by (apply Z.mod_pos_bound; lia).
  destruct (Byte.of_N (Z.to_N (z mod 256))) as [b|] eqn:E.
  - apply Byte.to_of_N in E. simpl. rewrite E. lia.
  - apply Byte.of_N_None_iff in E. lia.
Qed.

Lemma byte_of_Z_of_byte b : byte_of_Z (Z_of_byte b) = b.
Proof.
  unfold byte_of_Z. pose proof (Z_of_byte_range b) as Hr.
  rewrite Z.mod_small by lia. unfold Z_of_byte.
  rewrite N2Z.id, Byte.of_to_N. reflexivity.
Qed.

Lemma length_le_bytes n v : length (le_bytes n v) = n.
Proof. revert v. induction n as [|n IH]; intros v; simpl; [done|]. by rewrite IH. Qed.

Lemma le_value_le_bytes n v : le_value (le_bytes n v) = v mod 256 ^ Z.of_nat n.
Proof.
  revert v. induction n as [|n IH]; intros v.
  - simpl. by rewrite Z.mod_1_r.
  - cbn [le_bytes le_value]. rewrite Z_of_byte_of_Z, IH.
    rewrite Nat2Z.inj_succ, Z.pow_succ_r by lia.
    rewrite Z.rem_mul_r by lia. reflexivity.
Qed.

(** ** Memory *)

Section Memory.
Local Open Scope nat_scope.

Lemma length_store off bs m : length (store off bs m) = length m.
Proof. apply length_inserts. Qed.

Lemma lookup_store_out off bs m i :
  i < off \/ off + length bs <= i -> store off bs m !! i = m !! i.
Proof.
  intros [H|H]; unfold store.
  - by apply list_lookup_inserts_lt.
  - by apply list_lookup_inserts_ge.
Qed.

Lemma lookup_store_in off bs m i :
  off <= i < off + length bs -> i < length m ->
  store off bs m !! i = bs !! (i - off).
Proof. intros. unfold store. by apply list_lookup_inserts. Qed.

Lemma lookup_load off n m i :
  i < n -> load off n m !! i = m !! (off + i).
Proof. intros. unfold load. rewrite lookup_take_lt by done. apply lookup_drop. Qed.

Lemma length_load off n m : off + n <= length m -> length (load off n m) = n.
Proof. intros. unfold load. rewrite length_take, length_drop. lia. Qed.

Lemma load_store_same off bs m :
  off + length bs <= length m -> load off (length bs) (store off bs m) = bs.
Proof.
  intros H. apply list_eq. intros i.
  destruct (decide (i < length bs)) as [Hi|Hi].
  - rewrite lookup_load by done. rewrite lookup_store_in by lia.
    f_equal. lia.
  - rewrite (lookup_ge_None_2 bs) by lia.
    apply lookup_ge_None_2. rewrite length_load; [lia|]. rewrite length_store. lia.
Qed.

Lemma load_store_other off bs m off' n :
  off' + n <= off \/ off + length bs <= off' ->
  load off' n (store off bs m) = load off' n m.
Proof.
  intros H. unfold load, store. apply list_eq. intros i.
  destruct (decide (i < n)) as [Hi|Hi].
  - rewrite !lookup_take_lt, !lookup_drop by done.
    destruct H; [apply list_lookup_inserts_lt | apply list_lookup_inserts_ge]; lia.
  - rewrite !lookup_take_ge by lia. done.
Qed.

Lemma drop_store_before off bs m n :
  off + length bs <= n -> drop n (store off bs m) = drop n m.
Proof.
  intros H. apply list_eq. intros i. rewrite !lookup_drop.
  apply lookup_store_out. lia.
Qed.

Lemma drop_store_same off bs m :
  off + length bs <= length m ->
  drop off (store off bs m) = bs ++ drop (off + length bs) m.
Proof.
  intros H. apply list_eq. intros i. rewrite lookup_drop.
  destruct (decide (i < length bs)) as [Hi|Hi].
  - rewrite lookup_store_in by lia. rewrite lookup_app_l by done. f_equal. lia.
  - rewrite lookup_store_out by lia. rewrite lookup_app_r by lia.
    rewrite lookup_drop. f_equal. lia.
Qed.

Lemma load_store_prefix off bs m n :
  off + length bs <= length m -> length bs <= n ->
  load off n (store off bs m) = bs ++ take (n - length bs) (drop (off + length bs) m).
Proof.
  intros H Hn. unfold load. rewrite drop_store_same by done.
  rewrite take_app_ge by done. done.
Qed.

Lemma byte_eqb_eq b c : Byte.eqb b c = true <-> b = c.
Proof. split; [apply Byte.byte_dec_bl | apply Byte.byte_dec_lb]. Qed.

Lemma c_str_length bs : length (c_str bs) <= length bs.
Proof. induction bs as [|b bs IH]; simpl; [lia|]. destruct (Byte.eqb b x00); simpl; lia. Qed.

Lemma c_str_nul_free bs : x00 ∉ c_str bs.
Proof.
  induction bs as [|b bs IH]; simpl; [apply not_elem_of_nil|].
  destruct (Byte.eqb b x00) eqn:E; [apply not_elem_of_nil|].
  apply not_elem_of_cons. split; [|done].
  intros <-. by rewrite Byte.byte_dec_lb in E.
Qed.

Lemma c_str_app_nul s l : x00 ∉ s -> c_str (s ++ x00 :: l) = s.
Proof.
  induction s as [|b s IH]; intros Hs; simpl; [done|].
  apply not_elem_of_cons in Hs as [Hb Hs].
  destruct (Byte.eqb b x00) eqn:E; [apply byte_eqb_eq in E; congruence|].
  by rewrite IH.
Qed.

Lemma c_str_id s : x00 ∉ s -> c_str s = s.
Proof.
  induction s as [|b s IH]; intros Hs; simpl; [done|].
  apply not_elem_of_cons in Hs as [Hb Hs].
  destruct (Byte.eqb b x00) eqn:E; [apply byte_eqb_eq in E; congruence|].
  by rewrite IH.
Qed.

Lemma c_str_replicate_nul n : c_str (replicate n x00) = [].
Proof. by destruct n. Qed.

(** A terminated string: the bytes of [bs] are a NUL-free string followed by a NUL. *)
Lemma c_str_terminated bs l :
  length (c_str bs) < length bs -> c_str (bs ++ l) = c_str bs.
Proof.
  induction bs as [|b bs IH]; simpl; [lia|].
  destruct (Byte.eqb b x00); [done|]. simpl. intros H. f_equal. apply IH. lia.
Qed.

Lemma c_str_take n bs :
  length (c_str bs) < n -> c_str (take n bs) = c_str bs.
Proof.
  revert n. induction bs as [|b bs IH]; intros n; simpl.
  - by rewrite take_nil.
  - destruct n as [|n]; [lia|]. simpl.
    destruct (Byte.eqb b x00); [done|]. simpl. intros H. f_equal. apply IH. lia.
Qed.

Lemma length_strscpy_pad src size : length (Kernel.strscpy_pad src size) = size.
Proof.
  unfold Kernel.strscpy_pad. rewrite length_app, length_replicate, length_take. lia.
Qed.

Lemma c_str_strscpy_pad src size :
  0 < size -> c_str (Kernel.strscpy_pad src size) = take (size - 1) (c_str src).
Proof.
  intros Hs. unfold Kernel.strscpy_pad.
  set (s := take (size - 1) (c_str src)).
  assert (Hlen : length s <= size - 1) by (subst s; rewrite length_take; lia).
  assert (Hnul : x00 ∉ s).
  { subst s. intros Hin. apply elem_of_take in Hin as (i & Hi & _).
    apply list_elem_of_lookup_2 in Hi. by apply c_str_nul_free in Hi. }
  destruct (size - length s) as [|n] eqn:E; [lia|].
  simpl. by apply c_str_app_nul.
Qed.

Lemma strncpy_from_user_spec u src count bs :
  Kernel.strncpy_from_user u src count = Some bs ->
  length bs <= count /\
  (bs = c_str bs ++ [x00] \/ (c_str bs = bs /\ length bs = count)).
Proof.
  revert src bs. induction count as [|count IH]; intros src bs; simpl.
  - intros [= <-]. simpl. split; [lia|]. by right.
  - destruct (u !! src) as [b|]; [|done].
    destruct (Byte.eqb b x00) eqn:E.
    + intros [= <-]. simpl. rewrite E. split; [lia|]. left.
      apply byte_eqb_eq in E. by subst.
    + destruct (Kernel.strncpy_from_user u (src + 1) count) as [bs'|] eqn:E'; [|done].
      intros [= <-]. destruct (IH _ _ E') as [Hl Hc]. simpl. rewrite E.
      split; [lia|]. destruct Hc as [Hc|[Hc Hn]].
      * left. simpl. by rewrite <- Hc.
      * right. rewrite Hc. split; [done|lia].
Qed.

Lemma strncpy_from_user_nofault_spec u src count bs :
  0 < count ->
  Kernel.strncpy_from_user_nofault u src count = Some bs ->
  length bs <= count /\ bs = c_str bs ++ [x00].
Proof.
  intros Hc. unfold Kernel.strncpy_from_user_nofault.
  destruct (Kernel.strncpy_from_user u src count) as [bs0|] eqn:E; [|done].
  destruct (strncpy_from_user_spec _ _ _ _ E) as [Hl Hs].
  destruct (length (c_str bs0) =? length bs0) eqn:El.
  - apply Nat.eqb_eq in El. intros [= <-]. rewrite length_insert. split; [done|].
    destruct Hs as [Hs|[Hs Hn]].
    { rewrite Hs in El at 2. rewrite length_app in El. simpl in El. lia. }
    assert (Hnul : x00 ∉ bs0) by (rewrite <- Hs; apply c_str_nul_free).
    assert (Hsplit : <[count - 1 := x00]> bs0 = take (count - 1) bs0 ++ [x00]).
    { rewrite <- (take_drop (count - 1) bs0) at 1.
      rewrite insert_app_r_alt by (rewrite length_take; lia).
      rewrite length_take. replace (count - 1 - (count - 1) `min` length bs0) with 0 by lia.
      destruct (drop (count - 1) bs0) as [|d ds] eqn:Ed.
      { apply (f_equal length) in Ed. rewrite length_drop in Ed. simpl in Ed. lia. }
      apply (f_equal length) in Ed. rewrite length_drop in Ed. simpl in Ed.
      destruct ds; [done|simpl in Ed; lia]. }
    rewrite Hsplit. rewrite c_str_app_nul; [done|].
    intros Hin. apply elem_of_take in Hin as (i & Hi & _).
    by apply list_elem_of_lookup_2 in Hi.
  - apply Nat.eqb_neq in El. intros [= <-]. split; [done|].
    destruct Hs as [Hs|[Hs Hn]]; [done|]. rewrite Hs in El. done.
Qed.

End Memory.

(** ** The capture agent, statement by statement *)

Lemma alter_last {A} (f : A -> A) (l : list A) (x : A) :
  alter f (length l) (l ++ [x]) = l ++ [f x].
Proof.
  rewrite alter_app_r_alt by lia. by rewrite Nat.sub_diag.
Qed.

Lemma reserve_Some size rb e rb1 :
  bpf_ringbuf_reserve size rb = Some (e, rb1) ->
  e = length (records rb) /\
  rb1 = {| max_entries := max_entries rb; consumer_pos := consumer_pos rb;
           producer_pos := producer_pos rb + rb_len size;
           records := records rb ++ [{| busy := true; payload := slot_content rb size |}];
           stale := stale rb |}.
Proof.
  unfold bpf_ringbuf_reserve. intros H.
  destruct (max_entries rb <? rb_len size); [done|].
  destruct (max_entries rb - 1 <? _); [done|].
  by inversion H.
Qed.

Lemma run_reserve_bind {B} (f : option nat -> prog B) size rb e rb1 b rb2 h2 :
  bpf_ringbuf_reserve size rb = Some (e, rb1) ->
  f (Some e) rb1 = (b, rb2, h2) ->
  (reserve size ≫= f) rb = (b, rb2, rb1 :: h2).
Proof.
  intros Hres Hf. unfold mbind, prog_mbind, prog_bind, reserve.
  by rewrite Hres, Hf.
Qed.

Lemma run_effect_bind {B} (f : ringbuf -> ringbuf) (k : prog B) rb s b rb2 h2 :
  f rb = s -> k s = (b, rb2, h2) ->
  (effect f ≫= fun _ => k) rb = (b, rb2, s :: h2).
Proof.
  intros <- Hk. unfold mbind, prog_mbind, prog_bind, effect. by rewrite Hk.
Qed.

Lemma rb_write_slot_in rb1 old b m f :
  rb_write (length old) f (slot_in rb1 old b m) = slot_in rb1 old b (f m).
Proof. unfold rb_write, slot_in, with_records. simpl. by rewrite alter_last. Qed.

Lemma submit_slot_in rb1 old b m :
  bpf_ringbuf_submit (length old) (slot_in rb1 old b m) = slot_in rb1 old false m.
Proof. unfold bpf_ringbuf_submit, slot_in, with_records. simpl. by rewrite alter_last. Qed.

Lemma handle_execve_reserved k ctx rb e rb1 :
  bpf_ringbuf_reserve sizeof_syscall_event rb = Some (e, rb1) ->
  let m0 := slot_content rb sizeof_syscall_event in
  handle_execve k ctx rb =
    (0, slot_in rb1 (records rb) false (populate k ctx m0),
     (slot_in rb1 (records rb) true <$> slot_states k ctx m0)
       ++ [slot_in rb1 (records rb) false (populate k ctx m0)]).
Proof.
  intros Hres m0. destruct (reserve_Some _ _ _ _ Hres) as [-> Hrb1].
  assert (Hin : slot_in rb1 (records rb) true m0 = rb1) by (by subst rb1).
  unfold handle_execve, populate, slot_states.
  cbv zeta. cbn [last default fmap list_fmap app].
  rewrite Hin at 1.
  eapply run_reserve_bind; [exact Hres|]. cbv beta iota.
  unfold set_u64, set_u32, call_helper.
  rewrite <- Hin at 1.
  do 7 (eapply run_effect_bind; [apply rb_write_slot_in|]).
  eapply run_effect_bind; [apply submit_slot_in|].
  reflexivity.
Qed.

Section Slot.
Local Open Scope nat_scope.

Lemma comm_helper_store k dst size m :
  (Kernel.bpf_get_current_comm k dst size m).1 = store dst (comm_bytes k size) m.
Proof.
  unfold Kernel.bpf_get_current_comm, comm_bytes.
  by destruct (Kernel.tasks k !! Kernel.current k).
Qed.

Lemma path_helper_store k dst size src m :
  (Kernel.bpf_probe_read_user_str k dst size src m).1 = store dst (path_bytes k src size) m.
Proof.
  unfold Kernel.bpf_probe_read_user_str, path_bytes.
  by destruct (Kernel.strncpy_from_user_nofault (Kernel.user k) src size).
Qed.

Lemma length_comm_bytes k size : length (comm_bytes k size) = size.
Proof.
  unfold comm_bytes. destruct (Kernel.tasks k !! Kernel.current k).
  - apply length_strscpy_pad.
  - apply length_replicate.
Qed.

Lemma comm_bytes_terminated k size :
  0 < size -> length (c_str (comm_bytes k size)) < size.
Proof.
  intros Hs. unfold comm_bytes. destruct (Kernel.tasks k !! Kernel.current k).
  - rewrite c_str_strscpy_pad by done. rewrite length_take. lia.
  - by rewrite c_str_replicate_nul.
Qed.

Lemma path_bytes_spec k src size :
  0 < size ->
  length (path_bytes k src size) <= size /\
  length (c_str (path_bytes k src size)) < length (path_bytes k src size).
Proof.
  intros Hs. unfold path_bytes.
  destruct (Kernel.strncpy_from_user_nofault (Kernel.user k) src size) as [bs|] eqn:E.
  - destruct (strncpy_from_user_nofault_spec _ _ _ _ Hs E) as [Hl Hb].
    split; [done|]. rewrite Hb at 2. rewrite length_app. simpl. lia.
  - rewrite c_str_replicate_nul, length_replicate. simpl. lia.
Qed.

Lemma length_slot_content rb size : length (slot_content rb size) = size.
Proof. unfold slot_content. by rewrite length_fmap, length_seq. Qed.

Lemma load_store_eq off n bs m :
  length bs = n -> off + n <= length m -> load off n (store off bs m) = bs.
Proof. intros <- H. by apply load_store_same. Qed.

Lemma le_value_le_bytes_small n v :
  (0 <= v < 256 ^ Z.of_nat n)%Z -> le_value (le_bytes n v) = v.
Proof. intros H. rewrite le_value_le_bytes. by apply Z.mod_small. Qed.

Lemma to_u32_range v : (0 <= to_u32 v < 2 ^ 32)%Z.
Proof. unfold to_u32. apply Z.mod_pos_bound. lia. Qed.

Lemma to_u64_range v : (0 <= to_u64 v < 2 ^ 64)%Z.
Proof. unfold to_u64. apply Z.mod_pos_bound. lia. Qed.

End Slot.

(** The record as the program leaves it, as nested stores. *)
Lemma populate_stores k ctx m0 :
  populate k ctx m0 =
  store off_filename (path_bytes k (default 0 (args ctx !! 0%nat)) MAX_PATH_LEN)
   (store off_comm (comm_bytes k TASK_COMM_LEN)
    (store off_ppid (le_bytes 4 (get_ppid_tgid k))
     (store off_gid (le_bytes 4 (to_u32 (Z.shiftr (Kernel.bpf_get_current_uid_gid k) 32)))
      (store off_uid (le_bytes 4 (to_u32 (Kernel.bpf_get_current_uid_gid k)))
       (store off_pid (le_bytes 4 (to_u32 (Z.shiftr (Kernel.bpf_get_current_pid_tgid k) 32)))
        (store off_ts_ns (le_bytes 8 (Kernel.bpf_ktime_get_ns k)) m0)))))).
Proof.
  unfold populate, slot_states. cbn [last default].
  by rewrite path_helper_store, comm_helper_store.
Qed.

Ltac layout :=
  rewrite ?length_store, ?length_le_bytes, ?length_comm_bytes;
  unfold off_ts_ns, off_pid, off_ppid, off_uid, off_gid, off_syscall_ret,
    off_comm, off_filename, sizeof_syscall_event, TASK_COMM_LEN, MAX_PATH_LEN in *;
  lia.

Ltac load_through :=
  repeat (rewrite load_store_other by layout).

Section Populated.
Local Open Scope nat_scope.
Context (k : Kernel.state) (ctx : trace_event_raw_sys_enter) (m0 : list byte).
Hypothesis Hlen : length m0 = sizeof_syscall_event.

Let data := populate k ctx m0.
Let ev := read_event data.

Lemma length_populate : length data = sizeof_syscall_event.
Proof. subst data. rewrite populate_stores. by rewrite !length_store. Qed.

Lemma populate_ts_ns : ts_ns ev = Kernel.bpf_ktime_get_ns k.
Proof.
  subst ev data. rewrite populate_stores. cbn [read_event ts_ns].
  load_through. rewrite load_store_eq by layout.
  apply le_value_le_bytes_small. apply to_u64_range.
Qed.

Lemma populate_pid :
  pid ev = to_u32 (Z.shiftr (Kernel.bpf_get_current_pid_tgid k) 32).
Proof.
  subst ev data. rewrite populate_stores. cbn [read_event pid].
  load_through. rewrite load_store_eq by layout.
  apply le_value_le_bytes_small. apply to_u32_range.
Qed.

Lemma populate_uid : uid ev = to_u32 (Kernel.bpf_get_current_uid_gid k).
Proof.
  subst ev data. rewrite populate_stores. cbn [read_event uid].
  load_through. rewrite load_store_eq by layout.
  apply le_value_le_bytes_small. apply to_u32_range.
Qed.

Lemma populate_gid :
  gid ev = to_u32 (Z.shiftr (Kernel.bpf_get_current_uid_gid k) 32).
Proof.
  subst ev data. rewrite populate_stores. cbn [read_event gid].
  load_through. rewrite load_store_eq by layout.
  apply le_value_le_bytes_small. apply to_u32_range.
Qed.

Lemma populate_ppid : ppid ev = get_ppid_tgid k.
Proof.
  subst ev data. rewrite populate_stores. cbn [read_event ppid].
  load_through. rewrite load_store_eq by layout.
  apply le_value_le_bytes_small. apply to_u32_range.
Qed.

Lemma populate_comm : comm ev = comm_bytes k TASK_COMM_LEN.
Proof.
  subst ev data. rewrite populate_stores. cbn [read_event comm].
  load_through. by rewrite load_store_eq by layout.
Qed.

Lemma populate_filename :
  c_str (filename ev)
  = c_str (path_bytes k (default 0%Z (args ctx !! 0)) MAX_PATH_LEN).
Proof.
  subst ev data. rewrite populate_stores. cbn [read_event filename].
  destruct (path_bytes_spec k (default 0%Z (args ctx !! 0)) MAX_PATH_LEN) as [Hl Ht];
    [unfold MAX_PATH_LEN; lia|].
  rewrite load_store_prefix by layout.
  by apply c_str_terminated.
Qed.

Lemma populate_syscall_ret :
  load off_syscall_ret 4 data = load off_syscall_ret 4 m0.
Proof.
  subst data. rewrite populate_stores.
  destruct (path_bytes_spec k (default 0%Z (args ctx !! 0)) MAX_PATH_LEN) as [Hl Ht];
    [unfold MAX_PATH_LEN; lia|].
  by load_through.
Qed.

End Populated.

(** *** The identity fields in terms of the current task *)

Lemma lor_shiftl_32 a b :
  0 <= a -> 0 <= b < 2 ^ 32 ->
  Z.lor (Z.shiftl a 32) b = a * 2 ^ 32 + b.
Proof.
  intros Ha Hb. rewrite Z.shiftl_mul_pow2 by lia.
  assert (Hland : Z.land (a * 2 ^ 32) b = 0).
  { apply Z.bits_inj'. intros n Hn. rewrite Z.land_spec, Z.bits_0.
    destruct (Z.lt_ge_cases n 32) as [Hlt|Hge].
    - rewrite Z.mul_pow2_bits_low by done. done.
    - assert (Hbit : Z.testbit b n = false).
      { destruct (Z.eq_dec b 0) as [->|Hb0]; [apply Z.bits_0|].
        apply Z.bits_above_log2; [lia|].
        apply Z.lt_le_trans with 32; [|lia]. apply Z.log2_lt_pow2; lia. }
      rewrite Hbit. apply andb_false_r. }
  rewrite <- Z.lxor_lor by done. symmetry. by apply Z.add_nocarry_lxor.
Qed.

Lemma hi32_of_pair a b :
  0 <= a < 2 ^ 32 -> 0 <= b < 2 ^ 32 ->
  to_u32 (Z.shiftr (to_u64 (Z.lor (Z.shiftl a 32) b)) 32) = a.
Proof.
  intros Ha Hb. rewrite lor_shiftl_32 by lia. unfold to_u64, to_u32.
  rewrite (Z.mod_small (a * 2 ^ 32 + b)) by lia.
  rewrite Z.shiftr_div_pow2 by lia.
  rewrite Z.div_add_l by lia. rewrite (Z.div_small b) by lia.
  rewrite Z.add_0_r. apply Z.mod_small. lia.
Qed.

Lemma lo32_of_pair a b :
  0 <= a < 2 ^ 32 -> 0 <= b < 2 ^ 32 ->
  to_u32 (to_u64 (Z.lor (Z.shiftl a 32) b)) = b.
Proof.
  intros Ha Hb. rewrite lor_shiftl_32 by lia. unfold to_u64, to_u32.
  rewrite (Z.mod_small (a * 2 ^ 32 + b)) by lia.
  rewrite Z.add_comm, Z.mod_add by lia. apply Z.mod_small. lia.
Qed.

(** With ids in the range of their C types, the record carries the
    thread-group id of the calling task as [pid] and its uid and gid. *)
Lemma populate_identity k ctx m0 task :
  length m0 = sizeof_syscall_event ->
  Kernel.tasks k !! Kernel.current k = Some task ->
  0 <= Kernel.tgid task < 2 ^ 31 -> 0 <= Kernel.pid task < 2 ^ 31 ->
  0 <= Kernel.uid task < 2 ^ 32 -> 0 <= Kernel.gid task < 2 ^ 32 ->
  let ev := read_event (populate k ctx m0) in
  pid ev = Kernel.tgid task /\ uid ev = Kernel.uid task /\ gid ev = Kernel.gid task.
Proof.
  intros Hlen Htask Htg Hpid Huid Hgid ev. subst ev.
  rewrite populate_pid, populate_uid, populate_gid by done.
  unfold Kernel.bpf_get_current_pid_tgid, Kernel.bpf_get_current_uid_gid.
  rewrite Htask.
  assert (Hu64 : forall v, 0 <= v < 2 ^ 31 -> to_u64 v = v)
    by (intros v Hv; unfold to_u64; apply Z.mod_small; lia).
  assert (Hu32 : forall v, 0 <= v < 2 ^ 32 -> to_u32 v = v)
    by (intros v Hv; unfold to_u32; apply Z.mod_small; lia).
  rewrite (Hu64 (Kernel.tgid task)), (Hu64 (Kernel.pid task)) by done.
  rewrite (Hu32 (Kernel.gid task)), (Hu32 (Kernel.uid task)) by done.
  split; [apply hi32_of_pair; lia|]. split; [apply lo32_of_pair; lia|].
  apply hi32_of_pair; lia.
Qed.

(** *** What the loader prints for a populated record *)

Lemma c_str_take_inv n bs :
  (length (c_str (take n bs)) < n)%nat -> c_str bs = c_str (take n bs).
Proof.
  revert n. induction bs as [|b bs IH]; intros n; [by rewrite take_nil|].
  destruct n as [|n]; [simpl; lia|]. cbn [take c_str].
  destruct (Byte.eqb b x00); [done|]. cbn [length]. intros H.
  f_equal. apply IH. lia.
Qed.

(** [%s] of a field that holds its terminator prints the string of that
    field and does not run into the next one. *)
Lemma fmt_s_field off n data :
  (length (c_str (load off n data)) < n)%nat ->
  fmt_s off data = string_of_list_byte (c_str (load off n data)).
Proof. intros H. unfold fmt_s. f_equal. by apply c_str_take_inv. Qed.

(** For a record the capture agent populated, the two strings printed
    are the strings of [comm] and [filename]. *)
Lemma fmt_s_populate k ctx m0 :
  length m0 = sizeof_syscall_event ->
  let data := populate k ctx m0 in
  fmt_s off_comm data = string_of_list_byte (c_str (comm (read_event data))) /\
  fmt_s off_filename data = string_of_list_byte (c_str (filename (read_event data))).
Proof.
  intros Hlen data. subst data. split.
  - apply (fmt_s_field off_comm TASK_COMM_LEN).
    change (load off_comm TASK_COMM_LEN (populate k ctx m0))
      with (comm (read_event (populate k ctx m0))).
    rewrite populate_comm by done. apply comm_bytes_terminated.
    unfold TASK_COMM_LEN. lia.
  - apply (fmt_s_field off_filename MAX_PATH_LEN).
    change (load off_filename MAX_PATH_LEN (populate k ctx m0))
      with (filename (read_event (populate k ctx m0))).
    rewrite populate_filename by done.
    destruct (path_bytes_spec k (default 0 (args ctx !! 0%nat)) MAX_PATH_LEN) as [Hl Ht];
      [unfold MAX_PATH_LEN; lia|]. lia.
Qed.

(** A path of 300 bytes is recorded as its first 255 bytes and a
    terminator. *)
Example long_path_truncated :
  let k := {| Kernel.clock := Kernel.clock k_sh; Kernel.current := Kernel.current k_sh;
              Kernel.tasks := Kernel.tasks k_sh;
              Kernel.user := user_string 70000 (replicate 300 "a"%byte) |} in
  (fun d => let e := read_event d in (c_str (filename e), filename e !! 255%nat))
    <$> visible (final (handle_execve k ctx_sh events_later))
  = [(replicate 255 "a"%byte, Some x00)].
Proof. vm_compute. reflexivity. Qed.

(** ** The capture agent: claims *)

Lemma committed_prefix_busy_last l m :
  committed_prefix (l ++ [{| busy := true; payload := m |}]) = committed_prefix l.
Proof.
  induction l as [|r l IH]; simpl; [done|].
  destruct (busy r); [done|]. by rewrite IH.
Qed.

Lemma visible_slot_in_busy rb rb1 m :
  visible (slot_in rb1 (records rb) true m) = visible rb.
Proof. unfold visible, slot_in. simpl. by rewrite committed_prefix_busy_last. Qed.

Lemma slot_of_slot_in rb1 old b m : slot_of (length old) (slot_in rb1 old b m) = m.
Proof.
  unfold slot_of, slot_in. simpl.
  rewrite lookup_app_r by lia. by rewrite Nat.sub_diag.
Qed.

(** A run that got its slot: what it returns, the ring it leaves and the
    states the ring went through. *)
Lemma run_reserved k ctx rb e rb1 :
  bpf_ringbuf_reserve sizeof_syscall_event rb = Some (e, rb1) ->
  let m0 := slot_content rb sizeof_syscall_event in
  let r := handle_execve k ctx rb in
  e = length (records rb) /\
  returned r = 0 /\
  final r = slot_in rb1 (records rb) false (populate k ctx m0) /\
  history r = (slot_in rb1 (records rb) true <$> slot_states k ctx m0) ++ [final r] /\
  slot_of e (final r) = populate k ctx m0.
Proof.
  intros Hres m0 r. subst r. rewrite (handle_execve_reserved _ _ _ _ _ Hres).
  destruct (reserve_Some _ _ _ _ Hres) as [-> _].
  unfold returned, final, history. simpl. repeat split; try done.
  apply slot_of_slot_in.
Qed.

(** C1. Whenever the agent gets a slot, the record it submits has a NUL
    among the 16 bytes of [comm] and a NUL among the 256 bytes of
    [filename], whatever the task name, the user string (too long,
    unreadable) and the old content of the slot; and the two helper
    calls that copy the strings (states 5 to 6 and 6 to 7 of the run)
    change no byte of the record outside the field they are given,
    which lies inside the 304 bytes of the slot. *)
Theorem C1_strings_terminated_within_capacity k ctx rb e rb1 :
  bpf_ringbuf_reserve sizeof_syscall_event rb = Some (e, rb1) ->
  let r := handle_execve k ctx rb in
  let data := slot_of e (final r) in
  records (final r) = records rb ++ [{| busy := false; payload := data |}] /\
  length (comm (read_event data)) = TASK_COMM_LEN /\
  length (filename (read_event data)) = MAX_PATH_LEN /\
  (length (c_str (comm (read_event data))) < TASK_COMM_LEN)%nat /\
  (length (c_str (filename (read_event data))) < MAX_PATH_LEN)%nat /\
  (off_comm + TASK_COMM_LEN <= off_filename)%nat /\
  (off_filename + MAX_PATH_LEN <= sizeof_syscall_event)%nat /\
  exists s5 s6 s7,
    history r !! 5%nat = Some s5 /\ history r !! 6%nat = Some s6 /\
    history r !! 7%nat = Some s7 /\
    agree_outside off_comm (off_comm + TASK_COMM_LEN) (slot_of e s5) (slot_of e s6) /\
    agree_outside off_filename (off_filename + MAX_PATH_LEN) (slot_of e s6) (slot_of e s7) /\
    length (slot_of e s7) = sizeof_syscall_event.
Proof.
  intros Hres r data.
  destruct (run_reserved k ctx rb e rb1 Hres) as (He & _ & Hfin & Hhist & Hdata).
  fold r in Hfin, Hhist, Hdata. fold data in Hdata.
  pose proof (length_slot_content rb sizeof_syscall_event) as Hm0.
  set (m0 := slot_content rb sizeof_syscall_event) in *.
  pose proof (length_populate k ctx m0 Hm0) as Hlen.
  split. { rewrite Hfin, Hdata. reflexivity. }
  split. { rewrite Hdata. cbn [read_event comm]. apply length_load. layout. }
  split. { rewrite Hdata. cbn [read_event filename]. apply length_load. layout. }
  split. { rewrite Hdata, (populate_comm k ctx m0 Hm0). apply comm_bytes_terminated.
           unfold TASK_COMM_LEN. lia. }
  split. { rewrite Hdata, (populate_filename k ctx m0 Hm0).
           destruct (path_bytes_spec k (default 0 (args ctx !! 0%nat)) MAX_PATH_LEN) as [Hl Ht];
             [unfold MAX_PATH_LEN; lia|]. lia. }
  split; [layout|]. split; [layout|].
  rewrite Hhist. unfold slot_states. cbn [fmap list_fmap app].
  do 3 eexists. split; [reflexivity|]. split; [reflexivity|]. split; [reflexivity|].
  rewrite He, !slot_of_slot_in.
  rewrite path_helper_store, comm_helper_store.
  split; [|split].
  - split; [apply length_store|]. intros i Hi. apply lookup_store_out.
    rewrite length_comm_bytes. lia.
  - destruct (path_bytes_spec k (default 0 (args ctx !! 0%nat)) MAX_PATH_LEN) as [Hl Ht];
      [unfold MAX_PATH_LEN; lia|].
    split; [apply length_store|]. intros i Hi. apply lookup_store_out. lia.
  - by rewrite !length_store.
Qed.

Lemma C1_witness :
  bpf_ringbuf_reserve sizeof_syscall_event events_later
    = Some (0%nat, reserved_in events_later) /\
  (length (c_str (comm (read_event
     (slot_of 0 (final (handle_execve k_sh ctx_wild events_later)))))) < TASK_COMM_LEN)%nat.
Proof.
  assert (H : bpf_ringbuf_reserve sizeof_syscall_event events_later
    = Some (0%nat, reserved_in events_later)) by reflexivity.
  split; [exact H|].
  exact (proj1 (proj2 (proj2 (proj2
    (C1_strings_terminated_within_capacity k_sh ctx_wild events_later _ _ H))))).
Defined.

Lemma run_not_reserved k ctx rb :
  bpf_ringbuf_reserve sizeof_syscall_event rb = None ->
  handle_execve k ctx rb = (0, rb, []).
Proof.
  intros Hres. unfold handle_execve, mbind, prog_mbind, prog_bind, reserve.
  by rewrite Hres.
Qed.

(** C2. When the reservation fails the program returns 0 at once: the
    ring is left exactly as it was (positions, records, what a reader
    sees) and went through no intermediate state. *)
Theorem C2_reservation_failure_drops_silently k ctx rb :
  bpf_ringbuf_reserve sizeof_syscall_event rb = None ->
  let r := handle_execve k ctx rb in
  returned r = 0 /\ final r = rb /\ history r = [] /\ visible (final r) = visible rb.
Proof.
  intros Hres r. subst r. by rewrite (run_not_reserved k ctx rb Hres).
Qed.

Lemma C2_witness :
  bpf_ringbuf_reserve sizeof_syscall_event events_full = None /\
  final (handle_execve k_sh ctx_sh events_full) = events_full.
Proof.
  assert (H : bpf_ringbuf_reserve sizeof_syscall_event events_full = None)
    by reflexivity.
  split; [exact H|].
  exact (proj1 (proj2 (C2_reservation_failure_drops_silently k_sh ctx_sh events_full H))).
Defined.

(** C3, as stated, fails: the same capture on the fresh ring and on a
    ring whose pages hold old bytes publishes two different records;
    the [syscall_ret] member of the second is the old content of the
    slot, so not every field of a published record was populated. *)
Lemma C3_counterexample_unpopulated_field :
  syscall_ret <$> (read_event <$> visible (final (handle_execve k_sh ctx_sh events))) = [0] /\
  syscall_ret <$> (read_event <$> visible (final (handle_execve k_sh ctx_sh events_later))) = [-1] /\
  load off_syscall_ret 4 <$> visible (final (handle_execve k_sh ctx_sh events_later))
    = [load off_syscall_ret 4 (slot_content events_later sizeof_syscall_event)].
Proof. vm_compute. done. Qed.

(** C3, amended. A run of the agent either gets no slot and leaves the
    ring untouched, or publishes one whole record: the record stays
    busy, and so out of a reader's sight, in every state of the ring but
    the last; the last state is the submitted record, which is not
    written again.  The submitted record has [ts_ns], [pid], [ppid],
    [uid], [gid], [comm] and [filename] populated; [syscall_ret] is not
    written and holds what the slot held when it was reserved. *)
Theorem C3_record_busy_until_submitted k ctx rb :
  let r := handle_execve k ctx rb in
  let data := slot_of (length (records rb)) (final r) in
  let ev := read_event data in
  (bpf_ringbuf_reserve sizeof_syscall_event rb = None /\
   final r = rb /\ history r = []) \/
  (is_Some (bpf_ringbuf_reserve sizeof_syscall_event rb) /\
   (exists hs, history r = hs ++ [final r] /\
      forall s, s ∈ hs ->
        (exists m, records s = records rb ++ [{| busy := true; payload := m |}]) /\
        visible s = visible rb) /\
   records (final r) = records rb ++ [{| busy := false; payload := data |}] /\
   ts_ns ev = Kernel.bpf_ktime_get_ns k /\
   pid ev = to_u32 (Z.shiftr (Kernel.bpf_get_current_pid_tgid k) 32) /\
   ppid ev = get_ppid_tgid k /\
   uid ev = to_u32 (Kernel.bpf_get_current_uid_gid k) /\
   gid ev = to_u32 (Z.shiftr (Kernel.bpf_get_current_uid_gid k) 32) /\
   comm ev = comm_bytes k TASK_COMM_LEN /\
   c_str (filename ev) = c_str (path_bytes k (default 0 (args ctx !! 0%nat)) MAX_PATH_LEN) /\
   load off_syscall_ret 4 data
   = load off_syscall_ret 4 (slot_content rb sizeof_syscall_event)).
Proof.
  intros r data ev.
  destruct (bpf_ringbuf_reserve sizeof_syscall_event rb) as [[e rb1]|] eqn:Hres.
  2:{ left. subst r. by rewrite (run_not_reserved k ctx rb Hres). }
  right.
  destruct (run_reserved k ctx rb e rb1 Hres) as (He & _ & Hfin & Hhist & Hdata).
  fold r in Hfin, Hhist, Hdata. rewrite He in Hdata. fold data in Hdata.
  pose proof (length_slot_content rb sizeof_syscall_event) as Hm0.
  set (m0 := slot_content rb sizeof_syscall_event) in *.
  split; [done|]. split.
  { eexists. split; [exact Hhist|]. intros s Hs.
    apply list_elem_of_fmap in Hs as (m & -> & _). split.
    - by exists m.
    - apply visible_slot_in_busy. }
  split. { rewrite Hfin, Hdata. reflexivity. }
  subst ev. rewrite Hdata.
  split; [by apply populate_ts_ns|].
  split; [by apply populate_pid|].
  split; [by apply populate_ppid|].
  split; [by apply populate_uid|].
  split; [by apply populate_gid|].
  split; [by apply populate_comm|].
  split; [by apply populate_filename|].
  by apply populate_syscall_ret.
Qed.

Lemma unmapped_pointer_faults u src count :
  u !! src = None -> (0 < count)%nat -> Kernel.strncpy_from_user u src count = None.
Proof. intros Hu Hc. destruct count; [lia|]. simpl. by rewrite Hu. Qed.



(** C5. The [ppid] of a submitted record is the thread-group id of the
    task that [real_parent] of the current task points to: it does not
    depend on the task's [parent] member nor on the arguments of the
    call. *)
Theorem C5_ppid_is_tgid_of_real_parent k ctx rb e rb1 task par :
  bpf_ringbuf_reserve sizeof_syscall_event rb = Some (e, rb1) ->
  Kernel.tasks k !! Kernel.current k = Some task ->
  Kernel.tasks k !! Kernel.real_parent task = Some par ->
  let r := handle_execve k ctx rb in
  let data := slot_of e (final r) in
  records (final r) = records rb ++ [{| busy := false; payload := data |}] /\
  ppid (read_event data) = to_u32 (Kernel.tgid par).
Proof.
  intros Hres Htask Hpar r data.
  destruct (run_reserved k ctx rb e rb1 Hres) as (He & _ & Hfin & _ & Hdata).
  fold r in Hfin, Hdata. fold data in Hdata.
  split. { rewrite Hfin, Hdata. reflexivity. }
  rewrite Hdata, populate_ppid by apply length_slot_content.
  unfold get_ppid_tgid, Kernel.BPF_CORE_READ, Kernel.bpf_get_current_task_btf.
  by rewrite Htask, Hpar.
Qed.

Lemma C5_witness :
  bpf_ringbuf_reserve sizeof_syscall_event events = Some (0%nat, reserved_in events) /\
  Kernel.tasks k_sh !! Kernel.current k_sh = Some sh_task /\
  Kernel.tasks k_sh !! Kernel.real_parent sh_task = Some init_task /\
  ppid (read_event (slot_of 0 (final (handle_execve k_sh ctx_sh events))))
    = to_u32 (Kernel.tgid init_task).
Proof.
  assert (H : bpf_ringbuf_reserve sizeof_syscall_event events
              = Some (0%nat, reserved_in events)) by reflexivity.
  assert (T : Kernel.tasks k_sh !! Kernel.current k_sh = Some sh_task)
    by (vm_compute; reflexivity).
  assert (P : Kernel.tasks k_sh !! Kernel.real_parent sh_task = Some init_task)
    by (vm_compute; reflexivity).
  split; [exact H|]. split; [exact T|]. split; [exact P|].
  exact (proj2 (C5_ppid_is_tgid_of_real_parent k_sh ctx_sh events _ _ _ _ H T P)).
Defined.

Lemma event_line_ignores_syscall_ret data bs :
  length bs = 4%nat ->
  event_line (store off_syscall_ret bs data) = event_line data.
Proof.
  intros Hbs. unfold event_line, read_event, fmt_s.
  cbn [ts_ns pid ppid uid gid].
  rewrite !load_store_other by (rewrite ?Hbs; layout).
  rewrite !drop_store_before by (rewrite ?Hbs; layout).
  reflexivity.
Qed.

(** C10. The bytes of [syscall_ret] in a submitted record are the bytes
    the slot held when it was reserved, and so are the four bytes of
    padding at the end; the seven other fields are assigned.  The line
    the loader prints for a record is the same whatever [syscall_ret]
    holds. *)
Theorem C10_syscall_ret_left_as_reserved k ctx rb e rb1 :
  bpf_ringbuf_reserve sizeof_syscall_event rb = Some (e, rb1) ->
  let r := handle_execve k ctx rb in
  let data := slot_of e (final r) in
  let old := slot_content rb sizeof_syscall_event in
  let ev := read_event data in
  records (final r) = records rb ++ [{| busy := false; payload := data |}] /\
  load off_syscall_ret 4 data = load off_syscall_ret 4 old /\
  syscall_ret ev = syscall_ret (read_event old) /\
  drop 300 data = drop 300 old /\
  ts_ns ev = Kernel.bpf_ktime_get_ns k /\
  pid ev = to_u32 (Z.shiftr (Kernel.bpf_get_current_pid_tgid k) 32) /\
  ppid ev = get_ppid_tgid k /\
  uid ev = to_u32 (Kernel.bpf_get_current_uid_gid k) /\
  gid ev = to_u32 (Z.shiftr (Kernel.bpf_get_current_uid_gid k) 32) /\
  comm ev = comm_bytes k TASK_COMM_LEN /\
  c_str (filename ev) = c_str (path_bytes k (default 0 (args ctx !! 0%nat)) MAX_PATH_LEN) /\
  forall bs : list byte, length bs = 4%nat ->
    event_line (store off_syscall_ret bs data) = event_line data.
Proof.
  intros Hres r data old ev.
  destruct (run_reserved k ctx rb e rb1 Hres) as (He & _ & Hfin & _ & Hdata).
  fold r in Hfin, Hdata. fold data old in Hdata.
  pose proof (length_slot_content rb sizeof_syscall_event) as Hold. fold old in Hold.
  assert (Hret : load off_syscall_ret 4 data = load off_syscall_ret 4 old).
  { rewrite Hdata. by apply populate_syscall_ret. }
  split. { rewrite Hfin, Hdata. reflexivity. }
  split; [done|].
  split. { subst ev. cbn [read_event syscall_ret]. by rewrite Hret. }
  split.
  { rewrite Hdata, populate_stores.
    destruct (path_bytes_spec k (default 0 (args ctx !! 0%nat)) MAX_PATH_LEN) as [Hl Ht];
      [unfold MAX_PATH_LEN; lia|].
    rewrite !drop_store_before by layout. done. }
  subst ev. rewrite Hdata.
  split; [by apply populate_ts_ns|].
  split; [by apply populate_pid|].
  split; [by apply populate_ppid|].
  split; [by apply populate_uid|].
  split; [by apply populate_gid|].
  split; [by apply populate_comm|].
  split; [by apply populate_filename|].
  intros bs Hbs. by apply event_line_ignores_syscall_ret.
Qed.

Lemma C10_witness :
  bpf_ringbuf_reserve sizeof_syscall_event events_later
    = Some (0%nat, reserved_in events_later) /\
  syscall_ret (read_event (slot_of 0 (final (handle_execve k_sh ctx_sh events_later))))
    = syscall_ret (read_event (slot_content events_later sizeof_syscall_event)).
Proof.
  assert (H : bpf_ringbuf_reserve sizeof_syscall_event events_later
    = Some (0%nat, reserved_in events_later)) by reflexivity.
  split; [exact H|].
  exact (proj1 (proj2 (proj2
    (C10_syscall_ret_left_as_reserved k_sh ctx_sh events_later _ _ H)))).
Defined.

(** ** The consumer loop *)

Lemma append_cons x (a b : string) : (String x a ++ b)%string = String x (a ++ b).
Proof. reflexivity. Qed.

Lemma append_assoc (a b c : string) : ((a ++ b) ++ c = a ++ (b ++ c))%string.
Proof. induction a as [|x a IH]; [done|]. by rewrite !append_cons, IH. Qed.

Lemma append_nil_r (a : string) : (a ++ EmptyString)%string = a.
Proof. induction a as [|x a IH]; [done|]. by rewrite append_cons, IH. Qed.

Lemma lines_of_app ds ds' : lines_of (ds ++ ds') = (lines_of ds ++ lines_of ds')%string.
Proof.
  induction ds as [|d ds IH]; cbn [lines_of app]; [done|].
  by rewrite IH, append_assoc.
Qed.

Lemma committed_prefix_all rs :
  Forall (fun r => busy r = false) rs -> committed_prefix rs = rs.
Proof. induction 1 as [|r rs Hr _ IH]; simpl; [done|]. by rewrite Hr, IH. Qed.

(** One firing of the agent adds nothing or one submitted record. *)
Lemma handle_execve_records k ctx rb :
  let rb' := final (handle_execve k ctx rb) in
  records rb' = records rb \/
  exists data, records rb' = records rb ++ [{| busy := false; payload := data |}].
Proof.
  intros rb'. subst rb'.
  destruct (bpf_ringbuf_reserve sizeof_syscall_event rb) as [[e rb1]|] eqn:Hres.
  - right. destruct (run_reserved k ctx rb e rb1 Hres) as (_ & _ & Hfin & _ & _).
    eexists. rewrite Hfin. reflexivity.
  - left. by rewrite (run_not_reserved k ctx rb Hres).
Qed.

Lemma capture_spec kc p :
  loop_inv p ->
  let p' := capture kc p in
  loop_inv p' /\ stop p' = stop p /\ stderr p' = stderr p /\ calls p' = calls p /\
  emitted p' = emitted p /\
  exists ds, committed p' = committed p ++ ds.
Proof.
  intros (Hc & Hb & Ho) p'. subst p'. unfold capture, set_ring, loop_inv.
  cbn [committed emitted ring stdout stop stderr calls].
  change ((handle_execve kc.1 kc.2 (ring p)).1.2)
    with (final (handle_execve kc.1 kc.2 (ring p))).
  destruct (handle_execve_records kc.1 kc.2 (ring p)) as [Hr|[data Hr]]; rewrite Hr.
  - rewrite drop_all. cbn [fmap list_fmap]. rewrite app_nil_r.
    repeat split; try done. exists []. by rewrite app_nil_r.
  - rewrite drop_app_length. rewrite fmap_app. cbn [fmap list_fmap payload].
    repeat split; try done.
    + by rewrite Hc, app_assoc.
    + apply Forall_app. split; [done|]. by apply Forall_singleton.
    + by eexists.
Qed.

Lemma captures_spec caps p :
  loop_inv p ->
  let p' := foldl (fun p kc => capture kc p) p caps in
  loop_inv p' /\ stop p' = stop p /\ stderr p' = stderr p /\ calls p' = calls p /\
  emitted p' = emitted p /\
  exists ds, committed p' = committed p ++ ds.
Proof.
  revert p. induction caps as [|kc caps IH]; intros p Hp; cbn [foldl].
  - repeat split; try apply Hp. exists []. by rewrite app_nil_r.
  - destruct (capture_spec kc p Hp) as (Hi & Hs & He & Hc & Hm & ds & Hd).
    destruct (IH _ Hi) as (Hi' & Hs' & He' & Hc' & Hm' & ds' & Hd').
    repeat split; try apply Hi'; try congruence.
    exists (ds ++ ds'). by rewrite Hd', Hd, app_assoc.
Qed.

Lemma process_ring_all rs cons_pos cnt p :
  Forall (fun r => busy r = false) rs ->
  exists cons_pos',
    ringbuf_process_ring handle_event rs cons_pos cnt p
    = (emit_all (payload <$> rs) p, [], cons_pos', cnt + Z.of_nat (length rs)).
Proof.
  intros Hrs. revert cons_pos cnt p.
  induction Hrs as [|r rs Hr _ IH]; intros cons_pos cnt p; cbn [ringbuf_process_ring].
  - exists cons_pos. unfold emit_all. cbn [fmap list_fmap lines_of length].
    rewrite append_nil_r, app_nil_r, Z.add_0_r. by destruct p.
  - rewrite Hr. unfold handle_event at 1. cbn [Z.ltb Z.compare].
    destruct (IH (cons_pos + rb_len (length (payload r))) (cnt + 1)
                (printf (event_line (payload r)) (sampled (payload r) p)))
      as [cons_pos' ->].
    exists cons_pos'. f_equal; [f_equal|].
    + unfold emit_all, printf, sampled.
      cbn [stop stdout stderr calls ring committed emitted fmap list_fmap lines_of].
      by rewrite append_assoc, <- app_assoc.
    + cbn [length]. lia.
Qed.

Lemma poll_ready_spec p :
  loop_inv p ->
  exists p' n,
    ring_buffer__poll handle_event PollReady p = (p', n) /\ 0 <= n /\
    loop_inv p' /\ stop p' = stop p /\ stderr p' = stderr p /\
    calls p' = calls p ++ [call_ring_buffer_poll] /\
    emitted p' = committed p /\ committed p' = committed p.
Proof.
  intros (Hc & Hb & Ho). unfold ring_buffer__poll.
  change (ring (called call_ring_buffer_poll p)) with (ring p).
  destruct (process_ring_all (records (ring p)) (consumer_pos (ring p)) 0
              (called call_ring_buffer_poll p) Hb) as [cons_pos' ->].
  eexists _, _. split; [reflexivity|].
  unfold loop_inv, set_ring, emit_all, called.
  cbn [stop stdout stderr calls ring committed emitted records fmap list_fmap].
  rewrite !app_nil_r. repeat split; try done.
  - lia.
  - by rewrite Ho, lines_of_app.
Qed.

(** A quiet round brings the loop back to its head, with the ring
    drained. *)
Lemma poll_loop_quiet q err p :
  quiet q -> stop p = false -> loop_inv p ->
  exists p' err',
    (forall rest, poll_loop (q :: rest) err p = poll_loop rest err' p') /\ 0 <= err' /\
    loop_inv p' /\ stop p' = false /\ stderr p' = stderr p /\
    calls p' = calls p ++ [call_ring_buffer_poll] /\
    emitted p' = committed p'.
Proof.
  intros [Hsig Hpoll] Hstop Hinv.
  destruct (captures_spec (captures q) p Hinv) as (Hi & Hs & He & Hc & Hm & _).
  set (p1 := foldl (fun p kc => capture kc p) p (captures q)) in *.
  destruct (poll_ready_spec p1 Hi) as (p2 & n & Hp & Hn & Hi2 & Hs2 & He2 & Hc2 & Hm2 & Hk2).
  exists p2, n. split.
  { intros rest. cbn [poll_loop]. rewrite Hsig, Hpoll. fold p1.
    rewrite Hs, Hstop, Hp.
    assert ((n =? - EINTR) = false) as -> by (apply Z.eqb_neq; unfold EINTR; lia).
    assert ((n <? 0) = false) as -> by (apply Z.ltb_ge; lia).
    done. }
  repeat split; try apply Hi2; try congruence.
Qed.

Lemma poll_loop_quiet_prefix pre err p :
  Forall quiet pre -> stop p = false -> loop_inv p -> 0 <= err ->
  emitted p = committed p ->
  exists p' err',
    (forall rest, poll_loop (pre ++ rest) err p = poll_loop rest err' p') /\ 0 <= err' /\
    loop_inv p' /\ stop p' = false /\ stderr p' = stderr p /\
    calls p' = calls p ++ replicate (length pre) call_ring_buffer_poll /\
    emitted p' = committed p'.
Proof.
  intros Hpre. revert err p.
  induction Hpre as [|q pre Hq _ IH]; intros err p Hstop Hinv Herr Hem.
  - exists p, err. cbn [app length replicate]. rewrite app_nil_r. done.
  - destruct (poll_loop_quiet q err p Hq Hstop Hinv)
      as (p1 & e1 & Heq & He1 & Hi1 & Hs1 & Hr1 & Hc1 & Hm1).
    destruct (IH e1 p1 Hs1 Hi1 He1 Hm1) as (p2 & e2 & Heq2 & He2 & Hi2 & Hs2 & Hr2 & Hc2 & Hm2).
    exists p2, e2. cbn [app length replicate].
    split. { intros rest. by rewrite Heq, Heq2. }
    split; [done|]. split; [done|]. split; [done|].
    split; [congruence|]. split; [|done]. by rewrite Hc2, Hc1, <- app_assoc.
Qed.

Lemma main_setup_ok w :
  setup_ok w ->
  main w = match poll_loop (rounds w) 0 loop_entry with
           | (p, None) => (p, None)
           | (p, Some err) => cleanup err p
           end.
Proof.
  intros (Ho & Hl & Ha & Hn). unfold main. rewrite Ho, Hl, Ha, Hn. reflexivity.
Qed.

Lemma loop_entry_inv : loop_inv loop_entry.
Proof. unfold loop_inv. cbn. repeat split. constructor. Qed.

Lemma visible_all rb :
  Forall (fun r => busy r = false) (records rb) -> visible rb = payload <$> records rb.
Proof. intros H. unfold visible. by rewrite committed_prefix_all. Qed.

(** *** Every run prints one [event_line] per surfaced record *)

Lemma loop_inv_frame p p' :
  committed p' = committed p -> emitted p' = emitted p -> ring p' = ring p ->
  stdout p' = stdout p -> loop_inv p -> loop_inv p'.
Proof. unfold loop_inv. intros -> -> -> ->. done. Qed.

Lemma poll_loop_inv rs err p : loop_inv p -> loop_inv (poll_loop rs err p).1.
Proof.
  revert err p. induction rs as [|r rs IH]; intros err p Hinv; cbn [poll_loop]; [done|].
  destruct (captures_spec (captures r) p Hinv) as (Hi & _).
  set (p1 := foldl (fun p kc => capture kc p) p (captures r)) in *.
  assert (Hi2 : loop_inv (if signal r then handle_sig SIGTERM p1 else p1)).
  { destruct (signal r); [|done]. by apply (loop_inv_frame p1). }
  set (p2 := if signal r then handle_sig SIGTERM p1 else p1) in *.
  destruct (stop p2); [done|].
  destruct (poll r) as [| |errno].
  - destruct (poll_ready_spec p2 Hi2) as (p3 & n & -> & Hn & Hi3 & _).
    destruct (n =? - EINTR); [done|]. destruct (n <? 0); [|by apply IH].
    by apply (loop_inv_frame p3).
  - cbn [ring_buffer__poll]. change (- EINTR =? - EINTR) with true. cbn [fst].
    by apply (loop_inv_frame p2).
  - cbn [ring_buffer__poll]. assert (Hi3 : loop_inv (called call_ring_buffer_poll p2))
      by (by apply (loop_inv_frame p2)).
    destruct (- errno =? - EINTR); [done|]. destruct (- errno <? 0); [|by apply IH].
    by apply (loop_inv_frame (called call_ring_buffer_poll p2)).
Qed.

Lemma start_inv : loop_inv start.
Proof. unfold loop_inv. cbn. repeat split. constructor. Qed.

(** Whatever the world does, at the end of [main] (or of the rounds) the
    standard output is one [event_line] per record handed to
    [handle_event], in the order they were submitted, and every
    submitted record was either handed over or is still in the ring. *)
Lemma main_inv w : loop_inv (main w).1.
Proof.
  unfold main.
  destruct (open_ok w); cbn [negb]; [|by apply (loop_inv_frame start), start_inv].
  destruct (load_ret w =? 0); cbn [negb];
    [|by apply (loop_inv_frame start), start_inv].
  destruct (attach_ret w =? 0); cbn [negb];
    [|by apply (loop_inv_frame start), start_inv].
  destruct (rb_new_ok w); cbn [negb];
    [|by apply (loop_inv_frame start), start_inv].
  pose proof (poll_loop_inv (rounds w) (attach_ret w) _ loop_entry_inv) as H.
  fold loop_entry.
  destruct (poll_loop (rounds w) (attach_ret w) loop_entry) as [p [err|]]; [|done].
  by apply (loop_inv_frame p).
Qed.

(** *** Line feeds in what [handle_event] prints *)

Lemma line_feeds_app a b : line_feeds (a ++ b) = (line_feeds a + line_feeds b)%nat.
Proof.
  induction a as [|x a IH]; [done|]. rewrite append_cons. cbn [line_feeds].
  rewrite IH. lia.
Qed.

Lemma line_feeds_digits d : line_feeds (NilEmpty.string_of_uint d) = 0%nat.
Proof. induction d; cbn [NilEmpty.string_of_uint line_feeds]; try done. Qed.

Lemma line_feeds_fmt_u n : line_feeds (fmt_u n) = 0%nat.
Proof.
  unfold fmt_u, NilZero.string_of_uint.
  destruct (N.to_uint (Z.to_N n)); try apply line_feeds_digits. done.
Qed.

(** The text printed for a record ends in a line feed; it holds another
    one for each line feed in the two strings of the record. *)
Lemma line_feeds_event_line data :
  line_feeds (event_line data)
  = (1 + line_feeds (fmt_s off_comm data) + line_feeds (fmt_s off_filename data))%nat.
Proof.
  unfold event_line, json_key, json_str.
  rewrite !line_feeds_app, !line_feeds_fmt_u. cbn. lia.
Qed.

(** *** Exit status of the other paths *)

Lemma main_open_failure w :
  open_ok w = false ->
  (main w).2 = Some 1 /\
  stderr (main w).1 = ("failed to open BPF skeleton" ++ nl)%string /\
  calls (main w).1 = [call_open].
Proof. intros Ho. unfold main. rewrite Ho. cbn. done. Qed.

Lemma main_load_failure w :
  open_ok w = true -> load_ret w < 0 ->
  (main w).2 = Some 1 /\
  stderr (main w).1 = ("failed to load BPF skeleton: " ++ fmt_d (load_ret w) ++ nl)%string /\
  calls (main w).1 = [call_open; call_load;
                      call_ring_buffer_free; call_destroy].
Proof.
  intros Ho Hl. unfold main. rewrite Ho. cbn [negb].
  assert ((load_ret w =? 0) = false) as -> by (apply Z.eqb_neq; lia).
  cbn [negb]. unfold cleanup. assert ((load_ret w <? 0) = true) as -> by (apply Z.ltb_lt; lia).
  cbn. done.
Qed.

Lemma main_attach_failure w :
  open_ok w = true -> load_ret w = 0 -> attach_ret w < 0 ->
  (main w).2 = Some 1 /\
  stderr (main w).1 = ("failed to attach BPF programs: " ++ fmt_d (attach_ret w) ++ nl)%string /\
  calls (main w).1 = [call_open; call_load;
                      call_attach;
                      call_ring_buffer_free; call_destroy].
Proof.
  intros Ho Hl Ha. unfold main. rewrite Ho, Hl. cbn [negb Z.eqb].
  assert ((attach_ret w =? 0) = false) as -> by (apply Z.eqb_neq; lia).
  cbn [negb]. unfold cleanup. assert ((attach_ret w <? 0) = true) as -> by (apply Z.ltb_lt; lia).
  cbn. done.
Qed.

(** A poll that fails with an errno other than EINTR is reported and
    ends the process with status 1. *)
Lemma main_poll_error w pre r post errno :
  setup_ok w ->
  rounds w = pre ++ r :: post ->
  Forall quiet pre ->
  signal r = false ->
  poll r = PollError errno ->
  0 < errno -> errno <> EINTR ->
  (main w).2 = Some 1 /\
  stderr (main w).1 = ("ring_buffer__poll error: " ++ fmt_d (- errno) ++ nl)%string.
Proof.
  intros Hw Hr Hpre Hsig Hpoll Hpos Hne. rewrite (main_setup_ok w Hw), Hr.
  destruct (poll_loop_quiet_prefix pre 0 loop_entry Hpre eq_refl loop_entry_inv)
    as (p1 & e1 & Heq & He1 & Hi1 & Hs1 & Hr1 & _); [lia|done|].
  rewrite Heq. cbn [poll_loop]. rewrite Hsig, Hpoll.
  destruct (captures_spec (captures r) p1 Hi1) as (_ & Hs & He & _).
  set (p2 := foldl (fun p kc => capture kc p) p1 (captures r)) in *.
  rewrite Hs, Hs1. cbn [ring_buffer__poll].
  assert ((- errno =? - EINTR) = false) as -> by (apply Z.eqb_neq; lia).
  assert ((- errno <? 0) = true) as -> by (apply Z.ltb_lt; lia).
  unfold cleanup.
  assert ((- errno <? 0) = true) as -> by (apply Z.ltb_lt; lia).
  cbn [fst snd called fprintf_stderr stderr]. rewrite He, Hr1. done.
Qed.

(** *** The scenario of the specification, end to end *)

Example end_to_end_sh :
  let p := (main w_late_record).1 in
  (fun d => let e := read_event d in
            (ts_ns e, pid e, ppid e, uid e, gid e,
             string_of_list_byte (c_str (comm e)),
             string_of_list_byte (c_str (filename e)))) <$> emitted p
  = [(12345, 100, 1, 0, 0, "sh"%string, "/bin/sh"%string)].
Proof. vm_compute. reflexivity. Qed.

(** *** Claims *)

(** C6: the code at the failing input.  With the setup done and any
    number of quiet rounds behind it, a poll that SIGINT or SIGTERM
    interrupts ends the loop with [err = -EINTR]: the stop flag is set,
    nothing is reported on the standard error, and the exit status is
    1, not 0. *)
Theorem C6_interrupted_poll_exits_nonzero w pre r post :
  setup_ok w ->
  rounds w = pre ++ r :: post ->
  Forall quiet pre ->
  signal r = false ->
  poll r = PollEINTR ->
  (main w).2 = Some 1 /\ stop (main w).1 = true /\ stderr (main w).1 = EmptyString.
Proof.
  intros Hw Hr Hpre Hsig Hpoll. rewrite (main_setup_ok w Hw), Hr.
  destruct (poll_loop_quiet_prefix pre 0 loop_entry Hpre eq_refl loop_entry_inv)
    as (p1 & e1 & Heq & He1 & Hi1 & Hs1 & Hr1 & _); [lia|done|].
  rewrite Heq. cbn [poll_loop]. rewrite Hsig, Hpoll.
  destruct (captures_spec (captures r) p1 Hi1) as (_ & Hs & He & _).
  set (p2 := foldl (fun p kc => capture kc p) p1 (captures r)) in *.
  rewrite Hs, Hs1. cbn [ring_buffer__poll].
  change (- EINTR =? - EINTR) with true. cbn [cleanup].
  change (- EINTR <? 0) with true. cbn. rewrite He, Hr1. done.
Qed.

Lemma C6_witness :
  setup_ok w_interrupted /\
  rounds w_interrupted
    = [round_capture] ++ {| captures := []; signal := false; poll := PollEINTR |} :: [] /\
  Forall quiet [round_capture] /\
  (main w_interrupted).2 = Some 1.
Proof.
  assert (Hs : setup_ok w_interrupted) by (repeat split).
  assert (Hq : Forall quiet [round_capture]) by (repeat constructor).
  split; [exact Hs|]. split; [reflexivity|]. split; [exact Hq|].
  exact (proj1 (C6_interrupted_poll_exits_nonzero w_interrupted [round_capture]
                  {| captures := []; signal := false; poll := PollEINTR |} []
                  Hs eq_refl Hq eq_refl eq_refl)).
Defined.

(** C7, as stated, fails: the second record is submitted before SIGTERM
    arrives; the loop then reads the stop flag and leaves with status 0
    without another poll, so that of two submitted records one is
    printed and the other is still in the ring when it is freed. *)
Lemma C7_counterexample_record_left_in_ring :
  (main w_late_record).2 = Some 0 /\
  length (committed (main w_late_record).1) = 2%nat /\
  length (emitted (main w_late_record).1) = 1%nat /\
  length (visible (ring (main w_late_record).1)) = 1%nat /\
  line_feeds (stdout (main w_late_record).1) = 1%nat.
Proof. vm_compute. done. Qed.

(** C7, amended. The shutdown signal is observed either at the loop
    condition, which reads the stop flag the handler set, or as a poll
    that the signal interrupted.  Either way the loop leaves with the
    flag set and without another poll, and nothing is drained: the
    polls completed are those of the quiet rounds before; the records
    emitted are exactly those submitted until the last of these polls
    returned, printed one [event_line] each in the order of submission;
    every record submitted after that is still in the ring, not
    emitted.  The exit status is 0 when the flag was read at the loop
    condition and 1 when the poll was interrupted. *)
Theorem C7_stop_flag_ends_loop_without_drain w pre r post :
  setup_ok w ->
  rounds w = pre ++ r :: post ->
  Forall quiet pre ->
  signal r = true \/ poll r = PollEINTR ->
  let p := (main w).1 in
  stop p = true /\
  (main w).2 = Some (if signal r then 0 else 1) /\
  calls p = calls loop_entry ++ replicate (length pre) call_ring_buffer_poll
            ++ (if signal r then [] else [call_ring_buffer_poll])
            ++ [call_ring_buffer_free; call_destroy] /\
  emitted p = committed (main (upto w pre)).1 /\
  stdout p = lines_of (emitted p) /\
  committed p = emitted p ++ visible (ring p).
Proof.
  intros Hw Hr Hpre Hobs p. subst p.
  assert (Hw' : setup_ok (upto w pre)) by exact Hw.
  rewrite (main_setup_ok w Hw), (main_setup_ok _ Hw'), Hr.
  change (rounds (upto w pre)) with pre.
  destruct (poll_loop_quiet_prefix pre 0 loop_entry Hpre eq_refl loop_entry_inv)
    as (p1 & e1 & Heq & He1 & Hi1 & Hs1 & Hr1 & Hc1 & Hm1); [lia|done|].
  pose proof (Heq []) as Hcut. rewrite app_nil_r in Hcut. cbn [poll_loop] in Hcut.
  rewrite Heq, Hcut. cbn [poll_loop].
  destruct (captures_spec (captures r) p1 Hi1) as ((Hc & Hb & Ho) & Hs & He & Hk & Hm & _).
  set (p2 := foldl (fun p kc => capture kc p) p1 (captures r)) in *.
  destruct (signal r) eqn:Hsig.
  - cbn [handle_sig set_stop stop]. unfold cleanup.
    assert ((e1 <? 0) = false) as -> by (apply Z.ltb_ge; lia).
    cbn [fst snd called handle_sig set_stop calls emitted stdout committed ring stop].
    split; [done|]. split; [done|]. split.
    { rewrite Hk, Hc1. by rewrite <- !app_assoc. }
    split; [congruence|]. split; [done|].
    by rewrite visible_all.
  - destruct Hobs as [Hobs|Hpoll]; [done|].
    rewrite Hs, Hs1, Hpoll. cbn [ring_buffer__poll].
    change (- EINTR =? - EINTR) with true. unfold cleanup.
    change (- EINTR <? 0) with true.
    cbn [fst snd called handle_sig set_stop calls emitted stdout committed ring stop].
    split; [done|]. split; [done|]. split.
    { rewrite Hk, Hc1. by rewrite <- !app_assoc. }
    split; [congruence|]. split; [done|].
    by rewrite visible_all.
Qed.

Lemma C7_witness :
  setup_ok w_late_record /\
  setup_ok w_sig_in_poll /\
  Forall quiet [round_capture] /\
  ((main w_late_record).2 = Some 0 /\
   emitted (main w_late_record).1
   = committed (main (upto w_late_record [round_capture])).1) /\
  ((main w_sig_in_poll).2 = Some 1 /\
   emitted (main w_sig_in_poll).1
   = committed (main (upto w_sig_in_poll [round_capture])).1).
Proof.
  assert (Hs : setup_ok w_late_record) by (repeat split).
  assert (Hs' : setup_ok w_sig_in_poll) by (repeat split).
  assert (Hq : Forall quiet [round_capture]) by (repeat constructor).
  split; [exact Hs|]. split; [exact Hs'|]. split; [exact Hq|].
  pose proof (C7_stop_flag_ends_loop_without_drain w_late_record [round_capture]
     {| captures := [(k_sh, ctx_sh)]; signal := true; poll := PollReady |} []
     Hs eq_refl Hq (or_introl eq_refl)) as H.
  pose proof (C7_stop_flag_ends_loop_without_drain w_sig_in_poll [round_capture]
     {| captures := [(k_sh, ctx_sh)]; signal := false; poll := PollEINTR |} []
     Hs' eq_refl Hq (or_intror eq_refl)) as H'.
  split.
  - exact (conj (proj1 (proj2 H)) (proj1 (proj2 (proj2 (proj2 H))))).
  - exact (conj (proj1 (proj2 H')) (proj1 (proj2 (proj2 (proj2 H'))))).
Defined.

(** C8: the code at the failing input.  When [ring_buffer__new] fails
    after the three earlier steps succeeded, the failure is reported
    and nothing is retried, but the exit status is 0. *)
Theorem C8_ring_buffer_failure_exits_zero w :
  open_ok w = true -> load_ret w = 0 -> attach_ret w = 0 -> rb_new_ok w = false ->
  (main w).2 = Some 0 /\
  stderr (main w).1 = ("failed to create ring buffer" ++ nl)%string /\
  calls (main w).1 = [call_open; call_load;
                      call_attach; call_ring_buffer_new;
                      call_ring_buffer_free; call_destroy].
Proof.
  intros Ho Hl Ha Hn. unfold main. rewrite Ho, Hl, Ha, Hn. cbn. done.
Qed.

Lemma C8_witness :
  open_ok w_no_ring = true /\ load_ret w_no_ring = 0 /\ attach_ret w_no_ring = 0 /\
  rb_new_ok w_no_ring = false /\ (main w_no_ring).2 = Some 0.
Proof.
  repeat (split; [reflexivity|]).
  exact (proj1 (C8_ring_buffer_failure_exits_zero w_no_ring eq_refl eq_refl eq_refl eq_refl)).
Defined.

(** C9: the code at the failing input.  One record whose path holds a
    line feed is surfaced and given to [handle_event] once; what is
    printed for it is two lines. *)
Theorem C9_line_feed_in_path_prints_two_lines :
  (main w_line_feed).2 = Some 0 /\
  length (emitted (main w_line_feed).1) = 1%nat /\
  stdout (main w_line_feed).1 = lines_of (emitted (main w_line_feed).1) /\
  line_feeds (stdout (main w_line_feed).1) = 2%nat.
Proof. vm_compute. done. Qed.

(** ** Further properties of the capture agent *)

(** X1. The [pid] of a submitted record is the thread-group id of the
    calling task, not its thread id, and [uid] and [gid] are its
    credentials: the program keeps the upper half of
    [bpf_get_current_pid_tgid] and the two halves of
    [bpf_get_current_uid_gid]. *)
Theorem X1_pid_is_thread_group_id k ctx rb e rb1 task :
  bpf_ringbuf_reserve sizeof_syscall_event rb = Some (e, rb1) ->
  Kernel.tasks k !! Kernel.current k = Some task ->
  0 <= Kernel.tgid task < 2 ^ 31 -> 0 <= Kernel.pid task < 2 ^ 31 ->
  0 <= Kernel.uid task < 2 ^ 32 -> 0 <= Kernel.gid task < 2 ^ 32 ->
  let ev := read_event (slot_of e (final (handle_execve k ctx rb))) in
  pid ev = Kernel.tgid task /\ uid ev = Kernel.uid task /\ gid ev = Kernel.gid task.
Proof.
  intros Hres Htask Htg Hpid Huid Hgid ev. subst ev.
  destruct (run_reserved k ctx rb e rb1 Hres) as (_ & _ & _ & _ & ->).
  apply populate_identity; [apply length_slot_content|done..].
Qed.

Lemma X1_witness :
  bpf_ringbuf_reserve sizeof_syscall_event events = Some (0%nat, reserved_in events) /\
  Kernel.tasks k_thread !! Kernel.current k_thread = Some thread_task /\
  pid (read_event (slot_of 0 (final (handle_execve k_thread ctx_sh events)))) = 100.
Proof.
  assert (H : bpf_ringbuf_reserve sizeof_syscall_event events
              = Some (0%nat, reserved_in events)) by reflexivity.
  assert (T : Kernel.tasks k_thread !! Kernel.current k_thread = Some thread_task)
    by (vm_compute; reflexivity).
  split; [exact H|]. split; [exact T|].
  refine (proj1 (X1_pid_is_thread_group_id k_thread ctx_sh events _ _ thread_task
                   H T _ _ _ _)); cbn; lia.
Defined.

(** *** The path as the record holds it *)

Lemma c_str_fixed_nul_free s : c_str s = s -> x00 ∉ s.
Proof. intros <-. apply c_str_nul_free. Qed.

Lemma c_str_fixed_cons b s :
  c_str (b :: s) = b :: s -> Byte.eqb b x00 = false /\ c_str s = s.
Proof.
  cbn [c_str]. destruct (Byte.eqb b x00); [done|]. intros [= H]. done.
Qed.

Lemma c_str_insert_nul n l :
  x00 ∉ l -> (n < length l)%nat -> c_str (<[n := x00]> l) = take n l.
Proof.
  revert n. induction l as [|b l IH]; intros n Hl Hn; [simpl in Hn; lia|].
  apply not_elem_of_cons in Hl as [Hb Hl].
  destruct n as [|n]; [done|]. cbn [take c_str]. simpl.
  destruct (Byte.eqb b x00) eqn:E; [apply byte_eqb_eq in E; congruence|].
  f_equal. apply IH; [done|]. simpl in Hn. lia.
Qed.

(** What [strncpy_from_user] stores when the string [s] and its
    terminator are mapped at [src]. *)
Lemma strncpy_from_user_mapped u src s count :
  c_str s = s ->
  user_bytes u src (length s + 1) = Some <$> (s ++ [x00]) ->
  Kernel.strncpy_from_user u src count
  = Some (if (length s <? count)%nat then s ++ [x00] else take count s).
Proof.
  revert s src. induction count as [|count IH]; intros s src Hs Hu; [done|].
  destruct s as [|b s].
  - cbn in Hu. injection Hu as Hu. cbn. by rewrite Hu.
  - apply c_str_fixed_cons in Hs as [Hb Hs].
    cbn [length Nat.add user_bytes fmap list_fmap app] in Hu.
    injection Hu as Hb0 Hu. cbn [Kernel.strncpy_from_user].
    rewrite Hb0, Hb, (IH s (src + 1) Hs Hu). cbn [length].
    change (S (length s) <? S count)%nat with (length s <? count)%nat.
    by destruct (length s <? count)%nat.
Qed.

Lemma path_bytes_mapped k src s count :
  (0 < count)%nat ->
  c_str s = s ->
  user_bytes (Kernel.user k) src (length s + 1) = Some <$> (s ++ [x00]) ->
  c_str (path_bytes k src count) = take (count - 1) s.
Proof.
  intros Hc Hs Hu. pose proof (c_str_fixed_nul_free s Hs) as Hnul.
  unfold path_bytes, Kernel.strncpy_from_user_nofault.
  rewrite (strncpy_from_user_mapped _ _ s count Hs Hu).
  destruct (length s <? count)%nat eqn:E.
  - apply Nat.ltb_lt in E.
    rewrite (c_str_app_nul s [] Hnul), length_app. cbn [length].
    assert ((length s =? length s + 1)%nat = false) as -> by (apply Nat.eqb_neq; lia).
    rewrite (c_str_app_nul s [] Hnul). by rewrite take_ge by lia.
  - apply Nat.ltb_ge in E.
    assert (Ht : x00 ∉ take count s).
    { intros Hin. apply elem_of_take in Hin as (i & Hi & _).
      by apply list_elem_of_lookup_2 in Hi. }
    rewrite (c_str_id _ Ht), Nat.eqb_refl.
    rewrite c_str_insert_nul; [|done|rewrite length_take; lia].
    rewrite take_take. f_equal. lia.
Qed.

(** X2. When the first argument of the call points to a mapped,
    terminated string, the [filename] of the submitted record is that
    string cut to its first 255 bytes: whole when it fits with its
    terminator in the 256 bytes of the field, truncated otherwise. *)
Theorem X2_filename_is_path_cut_to_255 k ctx rb e rb1 s :
  bpf_ringbuf_reserve sizeof_syscall_event rb = Some (e, rb1) ->
  c_str s = s ->
  user_bytes (Kernel.user k) (default 0 (args ctx !! 0%nat)) (length s + 1)
    = Some <$> (s ++ [x00]) ->
  c_str (filename (read_event (slot_of e (final (handle_execve k ctx rb)))))
  = take 255 s.
Proof.
  intros Hres Hs Hu.
  destruct (run_reserved k ctx rb e rb1 Hres) as (_ & _ & _ & _ & ->).
  rewrite populate_filename by apply length_slot_content.
  by rewrite (path_bytes_mapped k _ s MAX_PATH_LEN) by (done || (unfold MAX_PATH_LEN; lia)).
Qed.

Lemma X2_witness :
  bpf_ringbuf_reserve sizeof_syscall_event events = Some (0%nat, reserved_in events) /\
  c_str (list_byte_of_string "/bin/sh") = list_byte_of_string "/bin/sh" /\
  user_bytes (Kernel.user k_sh) (default 0 (args ctx_sh !! 0%nat))
    (length (list_byte_of_string "/bin/sh") + 1)
    = Some <$> (list_byte_of_string "/bin/sh" ++ [x00]) /\
  c_str (filename (read_event (slot_of 0 (final (handle_execve k_sh ctx_sh events)))))
  = take 255 (list_byte_of_string "/bin/sh").
Proof.
  assert (H : bpf_ringbuf_reserve sizeof_syscall_event events
              = Some (0%nat, reserved_in events)) by reflexivity.
  assert (S : c_str (list_byte_of_string "/bin/sh") = list_byte_of_string "/bin/sh")
    by reflexivity.
  assert (U : user_bytes (Kernel.user k_sh) (default 0 (args ctx_sh !! 0%nat))
                (length (list_byte_of_string "/bin/sh") + 1)
              = Some <$> (list_byte_of_string "/bin/sh" ++ [x00]))
    by (vm_compute; reflexivity).
  split; [exact H|]. split; [exact S|]. split; [exact U|].
  exact (X2_filename_is_path_cut_to_255 k_sh ctx_sh events _ _ _ H S U).
Defined.

Lemma rb_len_event : rb_len sizeof_syscall_event = 312.
Proof. reflexivity. Qed.

(** X3. A firing of the agent only appends: it returns 0 and leaves
    the capacity, the consumer position and every record already in the
    ring as they were, in every state it goes through.  What it adds is
    fixed by the reservation.  When [bpf_ringbuf_reserve] refuses the
    312 bytes of a record (304 of payload and 8 of header), which it
    does exactly when the producer would get more than
    [max_entries - 1] bytes ahead of the consumer, the ring is left as
    it was, with no state in between.  When it grants them, exactly one
    record is added, submitted, of 304 bytes, holding the slot as the
    program populated it, and the producer position advances by 312. *)
Theorem X3_agent_only_appends k ctx rb :
  let r := handle_execve k ctx rb in
  returned r = 0 /\
  (forall s, s ∈ history r ++ [final r] ->
     max_entries s = max_entries rb /\ consumer_pos s = consumer_pos rb /\
     take (length (records rb)) (records s) = records rb) /\
  match bpf_ringbuf_reserve sizeof_syscall_event rb with
  | None => final r = rb /\ history r = []
  | Some _ =>
      let data := populate k ctx (slot_content rb sizeof_syscall_event) in
      records (final r) = records rb ++ [{| busy := false; payload := data |}] /\
      length data = 304%nat /\
      producer_pos (final r) = producer_pos rb + 312
  end /\
  (bpf_ringbuf_reserve sizeof_syscall_event rb = None <->
   max_entries rb < 312 \/ max_entries rb - 1 < producer_pos rb + 312 - consumer_pos rb).
Proof.
  intros r. subst r.
  assert (Hroom : bpf_ringbuf_reserve sizeof_syscall_event rb = None <->
            max_entries rb < 312 \/
            max_entries rb - 1 < producer_pos rb + 312 - consumer_pos rb).
  { unfold bpf_ringbuf_reserve. rewrite rb_len_event.
    destruct (max_entries rb <? 312) eqn:E1.
    { apply Z.ltb_lt in E1. split; [by left|done]. }
    apply Z.ltb_ge in E1.
    destruct (max_entries rb - 1 <? producer_pos rb + 312 - consumer_pos rb) eqn:E2.
    { apply Z.ltb_lt in E2. split; [by right|done]. }
    apply Z.ltb_ge in E2. split; [done|]. lia. }
  destruct (bpf_ringbuf_reserve sizeof_syscall_event rb) as [[e rb1]|] eqn:Hres.
  - destruct (run_reserved k ctx rb e rb1 Hres) as (_ & Hret & Hfin & Hhist & _).
    destruct (reserve_Some _ _ _ _ Hres) as [_ Hrb1].
    assert (Hs : forall b m, let s := slot_in rb1 (records rb) b m in
              max_entries s = max_entries rb /\ consumer_pos s = consumer_pos rb /\
              take (length (records rb)) (records s) = records rb).
    { intros b m s. subst s rb1. cbn. by rewrite take_app_length. }
    split; [done|]. split; [|split; [|done]].
    + intros s Hin. rewrite Hhist, Hfin in Hin.
      apply elem_of_app in Hin as [Hin|Hin].
      * apply elem_of_app in Hin as [Hin|Hin].
        -- apply list_elem_of_fmap in Hin as (m & -> & _). apply Hs.
        -- apply list_elem_of_singleton in Hin as ->. apply Hs.
      * apply list_elem_of_singleton in Hin as ->. apply Hs.
    + cbv zeta. rewrite Hfin. split; [reflexivity|]. split.
      * apply length_populate, length_slot_content.
      * subst rb1. cbn [slot_in with_records producer_pos]. by rewrite rb_len_event.
  - rewrite (run_not_reserved k ctx rb Hres). unfold returned, final, history. cbn.
    split; [done|]. split; [|done].
    intros s Hin. apply list_elem_of_singleton in Hin as ->. by rewrite take_ge.
Qed.

(** *** The depth of the map *)





(** *** From the firing to the printed line *)

Lemma event_line_populate k ctx m0 :
  length m0 = sizeof_syscall_event ->
  event_line (populate k ctx m0) = line_for k ctx.
Proof.
  intros Hlen. unfold event_line, line_for.
  destruct (fmt_s_populate k ctx m0 Hlen) as [-> ->].
  cbv zeta.
  rewrite populate_ts_ns, populate_pid, populate_ppid, populate_uid, populate_gid,
    populate_comm, populate_filename by done.
  reflexivity.
Qed.

(** X5. What the loader prints for a record the agent submitted is
    fixed by the kernel state and the arguments of the call alone: the
    integers come back as they were stored and the two strings end at
    their terminator, so that nothing of what the slot held before
    (nor [syscall_ret], nor the bytes after a terminator) reaches the
    output. *)
Theorem X5_printed_line_of_a_captured_record k ctx rb e rb1 :
  bpf_ringbuf_reserve sizeof_syscall_event rb = Some (e, rb1) ->
  event_line (slot_of e (final (handle_execve k ctx rb))) = line_for k ctx.
Proof.
  intros Hres.
  destruct (run_reserved k ctx rb e rb1 Hres) as (_ & _ & _ & _ & ->).
  apply event_line_populate, length_slot_content.
Qed.

Lemma X5_witness :
  bpf_ringbuf_reserve sizeof_syscall_event events_later
    = Some (0%nat, reserved_in events_later) /\
  event_line (slot_of 0 (final (handle_execve k_sh ctx_sh events_later)))
  = line_for k_sh ctx_sh.
Proof.
  assert (H : bpf_ringbuf_reserve sizeof_syscall_event events_later
              = Some (0%nat, reserved_in events_later)) by reflexivity.
  split; [exact H|].
  exact (X5_printed_line_of_a_captured_record k_sh ctx_sh events_later _ _ H).
Defined.

(** ** Further properties of the loader *)

(** *** What the loop does to the calls and to the count of records *)

Lemma capture_frame kc p :
  let p' := capture kc p in
  stop p' = stop p /\ stderr p' = stderr p /\ calls p' = calls p /\
  (length (committed p') <= S (length (committed p)))%nat.
Proof.
  intros p'. subst p'. unfold capture, set_ring.
  cbn [stop stderr calls committed].
  change ((handle_execve kc.1 kc.2 (ring p)).1.2)
    with (final (handle_execve kc.1 kc.2 (ring p))).
  repeat split.
  destruct (handle_execve_records kc.1 kc.2 (ring p)) as [Hr|[data Hr]]; rewrite Hr.
  - rewrite drop_all, length_app. cbn. lia.
  - rewrite drop_app_length, length_app. cbn. lia.
Qed.

Lemma captures_frame cs p :
  let p' := foldl (fun p kc => capture kc p) p cs in
  stop p' = stop p /\ stderr p' = stderr p /\ calls p' = calls p /\
  (length (committed p') <= length (committed p) + length cs)%nat.
Proof.
  revert p. induction cs as [|kc cs IH]; intros p; cbn [foldl length].
  - repeat split. lia.
  - destruct (capture_frame kc p) as (Hs & He & Hc & Hl).
    destruct (IH (capture kc p)) as (Hs' & He' & Hc' & Hl').
    repeat split; try congruence. lia.
Qed.

Lemma process_ring_frame rs cons_pos cnt p :
  exists p' rest cp res,
    ringbuf_process_ring handle_event rs cons_pos cnt p = (p', rest, cp, res) /\
    stop p' = stop p /\ stderr p' = stderr p /\ calls p' = calls p /\
    committed p' = committed p /\ ring p' = ring p.
Proof.
  revert cons_pos cnt p. induction rs as [|r rs IH]; intros cons_pos cnt p;
    cbn [ringbuf_process_ring].
  - by eexists _, _, _, _.
  - destruct (busy r); [by eexists _, _, _, _|].
    unfold handle_event at 1. cbn [Z.ltb Z.compare].
    destruct (IH (cons_pos + rb_len (length (payload r))) (cnt + 1)
                (printf (event_line (payload r)) (sampled (payload r) p)))
      as (p' & rest & cp & res & -> & Hs & He & Hc & Hm & Hr).
    by eexists _, _, _, _.
Qed.

Lemma poll_frame o p :
  let p' := (ring_buffer__poll handle_event o p).1 in
  stderr p' = stderr p /\ calls p' = calls p ++ [call_ring_buffer_poll] /\
  committed p' = committed p.
Proof.
  destruct o as [| |errno]; cbn [ring_buffer__poll]; try done.
  destruct (process_ring_frame (records (ring (called call_ring_buffer_poll p)))
                (consumer_pos (ring (called call_ring_buffer_poll p))) 0
                (called call_ring_buffer_poll p))
    as (p' & rest & cp & res & -> & _ & He & Hc & Hm & _).
  cbn. rewrite He, Hc, Hm, app_nil_r. done.
Qed.

(** The loop only adds polls to the calls, at most one per round and
    none from the round on in which the stop signal was delivered; the
    records submitted are at most one per firing. *)
Lemma poll_loop_frame rs err p :
  let r := poll_loop rs err p in
  exists n,
    (n <= rounds_before_signal rs)%nat /\
    calls r.1 = calls p ++ replicate n call_ring_buffer_poll /\
    (length (committed r.1) <= length (committed p) + attempts rs)%nat /\
    (forall e, r.2 = Some e -> e < 0 \/ e = err \/ (0 < n)%nat).
Proof.
  revert err p. induction rs as [|r rs IH]; intros err p; cbn [poll_loop].
  - exists 0%nat. cbn. rewrite app_nil_r. split; [lia|]. split; [done|].
    split; [lia|]. done.
  - destruct (captures_frame (captures r) p) as (Hs & He & Hc & Hl).
    set (p1 := foldl (fun p kc => capture kc p) p (captures r)) in *.
    cbn [rounds_before_signal attempts].
    destruct (signal r).
    { exists 0%nat. cbn. rewrite app_nil_r, Hc. split; [lia|]. split; [done|].
      split; [lia|]. intros e [= <-]. auto. }
    destruct (stop p1).
    { exists 0%nat. cbn. rewrite app_nil_r, Hc. split; [lia|]. split; [done|].
      split; [lia|]. intros e [= <-]. auto. }
    destruct (poll_frame (poll r) p1) as (He2 & Hc2 & Hm2).
    destruct (ring_buffer__poll handle_event (poll r) p1) as [p2 e2]. cbn [fst] in *.
    destruct (e2 =? - EINTR) eqn:E1.
    { exists 1%nat. cbn. rewrite Hc2, Hc, Hm2. split; [lia|]. split; [done|].
      split; [lia|]. intros e [= <-]. apply Z.eqb_eq in E1. unfold EINTR in E1. lia. }
    destruct (e2 <? 0) eqn:E2.
    { exists 1%nat. cbn. rewrite Hc2, Hc, Hm2. split; [lia|]. split; [done|].
      split; [lia|]. intros e [= <-]. apply Z.ltb_lt in E2. lia. }
    destruct (IH e2 p2) as (n & Hn & Hcalls & Hcom & Herr).
    exists (S n). rewrite Hcalls, Hc2, Hc, <- app_assoc. rewrite Hm2 in Hcom. cbn.
    split; [lia|]. split; [done|]. split; [lia|]. intros e He'. right. right. lia.
Qed.


(** The calls, the records and the exit status of any run. *)
Lemma main_frame w :
  exists j n,
    (1 <= j <= 4)%nat /\ (n <= rounds_before_signal (rounds w))%nat /\
    ((0 < n)%nat -> j = 4%nat) /\
    calls (main w).1
    = take j setup_calls ++ replicate n call_ring_buffer_poll ++
      match (main w).2 with
      | Some _ => if open_ok w then release_calls else []
      | None => []
      end /\
    (length (committed (main w).1) <= attempts (rounds w))%nat /\
    (forall s, (main w).2 = Some s -> s = 0 \/ s = 1).
Proof.
  unfold main.
  destruct (open_ok w); cbn [negb].
  2:{ exists 1%nat, 0%nat. cbn. split; [lia|]. split; [lia|]. split; [lia|].
      split; [done|]. split; [lia|]. intros s [= <-]. auto. }
  destruct (load_ret w =? 0); cbn [negb].
  2:{ exists 2%nat, 0%nat. unfold cleanup. cbn. split; [lia|]. split; [lia|].
      split; [lia|]. split; [done|]. split; [lia|].
      intros s [= <-]. destruct (load_ret w <? 0); auto. }
  destruct (attach_ret w =? 0); cbn [negb].
  2:{ exists 3%nat, 0%nat. unfold cleanup. cbn. split; [lia|]. split; [lia|].
      split; [lia|]. split; [done|]. split; [lia|].
      intros s [= <-]. destruct (attach_ret w <? 0); auto. }
  destruct (rb_new_ok w); cbn [negb].
  2:{ exists 4%nat, 0%nat. unfold cleanup. cbn. split; [lia|]. split; [lia|].
      split; [lia|]. split; [done|]. split; [lia|]. intros s [= <-]. auto. }
  fold loop_entry.
  destruct (poll_loop_frame (rounds w) (attach_ret w) loop_entry)
    as (n & Hn & Hc & Hm & _).
  exists 4%nat, n. split; [lia|]. split; [done|]. split; [done|].
  destruct (poll_loop (rounds w) (attach_ret w) loop_entry) as [p [err|]];
    cbn [fst snd] in *.
  - unfold cleanup. cbn [fst snd called calls committed]. rewrite Hc.
    split; [by rewrite <- !app_assoc|]. split; [done|].
    intros s [= <-]. destruct (err <? 0); auto.
  - rewrite Hc, app_nil_r. split; [done|]. split; [done|]. done.
Qed.

(** *** The lines of a run are lines of its firings *)

Lemma cons_eq_inv {A} (a b : A) (l k : list A) : a :: l = b :: k -> a = b /\ l = k.
Proof. by intros [= -> ->]. Qed.

Lemma lines_of_lines_for ds fs :
  event_line <$> ds = (fun kc => line_for kc.1 kc.2) <$> fs ->
  lines_of ds = lines_for fs.
Proof.
  revert fs. induction ds as [|d ds IH]; intros [|kc fs] H; try done.
  rewrite !fmap_cons in H. apply cons_eq_inv in H as [Hd Hds].
  cbn [lines_of lines_for]. by rewrite Hd, (IH fs Hds).
Qed.

Lemma capture_lines kc p :
  exists fs, sublist fs [kc] /\
    event_line <$> committed (capture kc p)
    = (event_line <$> committed p) ++ ((fun kc => line_for kc.1 kc.2) <$> fs).
Proof.
  unfold capture, set_ring. cbn [committed].
  change ((handle_execve kc.1 kc.2 (ring p)).1.2)
    with (final (handle_execve kc.1 kc.2 (ring p))).
  destruct (bpf_ringbuf_reserve sizeof_syscall_event (ring p)) as [[e rb1]|] eqn:Hres.
  - destruct (run_reserved kc.1 kc.2 (ring p) e rb1 Hres) as (_ & _ & -> & _ & _).
    exists [kc]. split; [done|].
    cbn [slot_in with_records records]. rewrite drop_app_length, fmap_app.
    cbn [fmap list_fmap payload].
    by rewrite event_line_populate by apply length_slot_content.
  - rewrite (run_not_reserved kc.1 kc.2 (ring p) Hres). unfold final. cbn [fst snd].
    exists []. split; [apply sublist_nil_l|].
    rewrite drop_all. cbn [fmap list_fmap]. by rewrite !app_nil_r.
Qed.

Lemma captures_lines cs p :
  exists fs, sublist fs cs /\
    event_line <$> committed (foldl (fun p kc => capture kc p) p cs)
    = (event_line <$> committed p) ++ ((fun kc => line_for kc.1 kc.2) <$> fs).
Proof.
  revert p. induction cs as [|kc cs IH]; intros p; cbn [foldl].
  - exists []. split; [done|]. by rewrite app_nil_r.
  - destruct (capture_lines kc p) as (f1 & Hs1 & H1).
    destruct (IH (capture kc p)) as (f2 & Hs2 & H2).
    exists (f1 ++ f2). split; [by apply (sublist_app f1 [kc] f2 cs)|].
    by rewrite H2, H1, fmap_app, app_assoc.
Qed.

Lemma poll_loop_lines rs err p :
  exists fs, sublist fs (firings rs) /\
    event_line <$> committed (poll_loop rs err p).1
    = (event_line <$> committed p) ++ ((fun kc => line_for kc.1 kc.2) <$> fs).
Proof.
  revert err p. induction rs as [|r rs IH]; intros err p; cbn [poll_loop firings].
  - exists []. split; [done|]. by rewrite app_nil_r.
  - destruct (captures_lines (captures r) p) as (f1 & Hs1 & H1).
    set (p1 := foldl (fun p kc => capture kc p) p (captures r)) in *.
    assert (Hstop : forall q : proc, committed q = committed p1 ->
              exists fs, sublist fs (captures r ++ firings rs) /\
                event_line <$> committed q
                = (event_line <$> committed p) ++ ((fun kc => line_for kc.1 kc.2) <$> fs)).
    { intros q Hq. exists f1. split; [by apply sublist_inserts_r|]. by rewrite Hq. }
    assert (Hsig : committed (if signal r then handle_sig SIGTERM p1 else p1)
                   = committed p1) by (by destruct (signal r)).
    set (p2 := if signal r then handle_sig SIGTERM p1 else p1) in *.
    destruct (stop p2); [by apply Hstop|].
    destruct (poll_frame (poll r) p2) as (_ & _ & Hm).
    destruct (ring_buffer__poll handle_event (poll r) p2) as [p3 e3]. cbn [fst] in Hm.
    destruct (e3 =? - EINTR); [apply Hstop; cbn [fst]; congruence|].
    destruct (e3 <? 0); [apply Hstop; cbn [fst fprintf_stderr committed]; congruence|].
    destruct (IH e3 p3) as (f2 & Hs2 & H2).
    exists (f1 ++ f2). split; [by apply sublist_app|].
    by rewrite H2, Hm, Hsig, H1, fmap_app, app_assoc.
Qed.

Lemma main_lines w :
  exists fs, sublist fs (firings (rounds w)) /\
    event_line <$> committed (main w).1 = (fun kc => line_for kc.1 kc.2) <$> fs.
Proof.
  assert (Hnone : forall q : proc, committed q = [] ->
            exists fs, sublist fs (firings (rounds w)) /\
              event_line <$> committed q = (fun kc => line_for kc.1 kc.2) <$> fs).
  { intros q ->. exists []. split; [apply sublist_nil_l|done]. }
  unfold main.
  destruct (open_ok w); cbn [negb]; [|by apply Hnone].
  destruct (load_ret w =? 0); cbn [negb]; [|by apply Hnone].
  destruct (attach_ret w =? 0); cbn [negb]; [|by apply Hnone].
  destruct (rb_new_ok w); cbn [negb]; [|by apply Hnone].
  fold loop_entry.
  destruct (poll_loop_lines (rounds w) (attach_ret w) loop_entry) as (fs & Hs & H).
  exists fs. split; [done|].
  destruct (poll_loop (rounds w) (attach_ret w) loop_entry) as [p [err|]]; exact H.
Qed.

(** X6. The text [handle_event] prints for a record ends in a line
    feed, and holds one more for each line feed in the [comm] and in
    the [filename] of the record: the integers and the fixed parts of
    the format hold none. *)
Theorem X6_line_feeds_of_a_printed_record data :
  line_feeds (event_line data)
  = (1 + line_feeds (fmt_s off_comm data) + line_feeds (fmt_s off_filename data))%nat /\
  exists body, event_line data = (body ++ nl)%string.
Proof.
  split; [apply line_feeds_event_line|].
  unfold event_line. cbv zeta. rewrite <- !append_assoc. by eexists.
Qed.

(** X7. Whatever the setup steps and the polls return, at the end of
    [main] (or of the rounds) the standard output is one line of
    [handle_event] for each record handed to it, in the order in which
    the agent submitted them, and every submitted record was either
    handed over once or is still readable in the ring. *)
Theorem X7_output_is_one_line_per_emitted_record w :
  let p := (main w).1 in
  stdout p = lines_of (emitted p) /\
  committed p = emitted p ++ visible (ring p).
Proof.
  intros p. subst p. destruct (main_inv w) as (Hc & Hb & Ho).
  split; [done|]. by rewrite visible_all.
Qed.

(** X8. When the skeleton cannot be opened, [main] reports it and
    returns 1 at once: nothing is loaded, attached, polled or released,
    and nothing is printed on the standard output. *)
Theorem X8_open_failure_returns_1_at_once w :
  open_ok w = false ->
  let p := (main w).1 in
  (main w).2 = Some 1 /\
  stderr p = ("failed to open BPF skeleton" ++ nl)%string /\
  calls p = [call_open] /\
  stdout p = EmptyString.
Proof. intros Ho. unfold main. rewrite Ho. cbn. done. Qed.

Lemma X8_witness :
  open_ok w_no_skeleton = false /\ (main w_no_skeleton).2 = Some 1.
Proof.
  split; [reflexivity|].
  exact (proj1 (X8_open_failure_returns_1_at_once w_no_skeleton eq_refl)).
Defined.

(** X9. When the load step returns a non-zero code, [main] reports the
    code, attaches nothing, creates no ring buffer and polls nothing,
    releases the skeleton through the cleanup label, and exits with
    status 1 exactly when the code is negative. *)
Theorem X9_load_failure_goes_to_cleanup w :
  open_ok w = true -> load_ret w <> 0 ->
  let p := (main w).1 in
  (main w).2 = Some (if load_ret w <? 0 then 1 else 0) /\
  stderr p = ("failed to load BPF skeleton: " ++ fmt_d (load_ret w) ++ nl)%string /\
  calls p = [call_open; call_load; call_ring_buffer_free; call_destroy] /\
  stdout p = EmptyString.
Proof.
  intros Ho Hl. unfold main. rewrite Ho. cbn [negb].
  assert ((load_ret w =? 0) = false) as -> by (by apply Z.eqb_neq).
  cbn [negb]. unfold cleanup. cbn. done.
Qed.

Lemma X9_witness :
  open_ok w_load_fails = true /\ load_ret w_load_fails <> 0 /\
  (main w_load_fails).2 = Some 1.
Proof.
  assert (H : load_ret w_load_fails <> 0) by (cbn; lia).
  split; [reflexivity|]. split; [exact H|].
  exact (proj1 (X9_load_failure_goes_to_cleanup w_load_fails eq_refl H)).
Defined.

(** X10. When the attach step returns a non-zero code after a
    successful load, [main] reports the code, creates no ring buffer
    and polls nothing, releases the skeleton through the cleanup label,
    and exits with status 1 exactly when the code is negative. *)
Theorem X10_attach_failure_goes_to_cleanup w :
  open_ok w = true -> load_ret w = 0 -> attach_ret w <> 0 ->
  let p := (main w).1 in
  (main w).2 = Some (if attach_ret w <? 0 then 1 else 0) /\
  stderr p = ("failed to attach BPF programs: " ++ fmt_d (attach_ret w) ++ nl)%string /\
  calls p = [call_open; call_load; call_attach; call_ring_buffer_free; call_destroy] /\
  stdout p = EmptyString.
Proof.
  intros Ho Hl Ha. unfold main. rewrite Ho, Hl. cbn [negb Z.eqb].
  assert ((attach_ret w =? 0) = false) as -> by (by apply Z.eqb_neq).
  cbn [negb]. unfold cleanup. cbn. done.
Qed.

Lemma X10_witness :
  open_ok w_attach_fails = true /\ load_ret w_attach_fails = 0 /\
  attach_ret w_attach_fails <> 0 /\ (main w_attach_fails).2 = Some 1.
Proof.
  assert (H : attach_ret w_attach_fails <> 0) by (cbn; lia).
  split; [reflexivity|]. split; [reflexivity|]. split; [exact H|].
  exact (proj1 (X10_attach_failure_goes_to_cleanup w_attach_fails eq_refl eq_refl H)).
Defined.

(** X11. A poll that fails with an errno other than [EINTR] ends the
    loop: the error is reported with its code, no further poll is
    made, the ring buffer and the skeleton are released, and the exit
    status is 1.  The records drained by the earlier polls have been
    printed. *)
Theorem X11_poll_error_is_reported w pre r post errno :
  setup_ok w ->
  rounds w = pre ++ r :: post ->
  Forall quiet pre ->
  signal r = false ->
  poll r = PollError errno ->
  0 < errno -> errno <> EINTR ->
  let p := (main w).1 in
  (main w).2 = Some 1 /\
  stderr p = ("ring_buffer__poll error: " ++ fmt_d (- errno) ++ nl)%string /\
  calls p = setup_calls ++ replicate (length pre + 1) call_ring_buffer_poll
            ++ release_calls /\
  emitted p = committed (main (upto w pre)).1.
Proof.
  intros Hw Hr Hpre Hsig Hpoll Hpos Hne p. subst p.
  assert (Hw' : setup_ok (upto w pre)) by exact Hw.
  rewrite (main_setup_ok w Hw), (main_setup_ok _ Hw'), Hr.
  change (rounds (upto w pre)) with pre.
  destruct (poll_loop_quiet_prefix pre 0 loop_entry Hpre eq_refl loop_entry_inv)
    as (p1 & e1 & Heq & He1 & Hi1 & Hs1 & Hr1 & Hc1 & Hm1); [lia|done|].
  pose proof (Heq []) as Hcut. rewrite app_nil_r in Hcut. rewrite Hcut, Heq.
  cbn [poll_loop]. rewrite Hsig, Hpoll.
  destruct (captures_spec (captures r) p1 Hi1) as (_ & Hs & He & Hc & Hm & _).
  set (p2 := foldl (fun p kc => capture kc p) p1 (captures r)) in *.
  rewrite Hs, Hs1. cbn [ring_buffer__poll].
  assert ((- errno =? - EINTR) = false) as -> by (apply Z.eqb_neq; lia).
  assert ((- errno <? 0) = true) as -> by (apply Z.ltb_lt; lia).
  unfold cleanup.
  assert ((- errno <? 0) = true) as -> by (apply Z.ltb_lt; lia).
  cbn [fst snd called fprintf_stderr stderr calls emitted committed].
  rewrite He, Hr1, Hc, Hc1, Hm, Hm1, replicate_add. cbn.
  split; [done|]. split; [done|]. split; [|done].
  by rewrite <- !app_assoc.
Qed.

Lemma X11_witness :
  setup_ok w_poll_fails /\ Forall quiet [round_capture] /\
  (main w_poll_fails).2 = Some 1.
Proof.
  assert (Hs : setup_ok w_poll_fails) by (repeat split).
  assert (Hq : Forall quiet [round_capture]) by (repeat constructor).
  split; [exact Hs|]. split; [exact Hq|].
  refine (proj1 (X11_poll_error_is_reported w_poll_fails [round_capture]
     {| captures := []; signal := false; poll := PollError 9 |} [] 9
     Hs eq_refl Hq eq_refl eq_refl _ _)); unfold EINTR; lia.
Defined.


(** X13. In every run the standard output is the lines of a
    subsequence of the firings of the agent, in the order of the
    firings, each line being the one that the kernel state and the
    argument of that firing fix: no record is printed twice and none
    is invented.  The records handed to [handle_event] are at most
    those submitted, and those at most one for each firing. *)
Theorem X13_at_most_one_record_per_firing w :
  let p := (main w).1 in
  exists fs,
    sublist fs (firings (rounds w)) /\
    stdout p = lines_for fs /\
    length (emitted p) = length fs /\
    (length (emitted p) <= length (committed p))%nat /\
    (length (committed p) <= attempts (rounds w))%nat.
Proof.
  intros p. subst p.
  destruct (main_frame w) as (j & n & _ & _ & _ & _ & Hm & _).
  destruct (main_inv w) as (Hc & _ & Ho).
  destruct (main_lines w) as (fs0 & Hsub & Hfs0).
  assert (Hlen : length fs0 = length (committed (main w).1)).
  { by rewrite <- (length_fmap (fun kc => line_for kc.1 kc.2)), <- Hfs0, length_fmap. }
  assert (Hle : (length (emitted (main w).1) <= length (committed (main w).1))%nat).
  { rewrite Hc, length_app. lia. }
  exists (take (length (emitted (main w).1)) fs0).
  split; [by etrans; [apply sublist_take|]|].
  split.
  { rewrite Ho. apply lines_of_lines_for.
    rewrite fmap_take, <- Hfs0, Hc, fmap_app.
    by rewrite take_app_length' by (by rewrite length_fmap). }
  split; [rewrite length_take; lia|]. done.
Qed.

(** X14. As long as no signal arrives and the polls succeed, [main]
    stays in the loop: it makes one poll for each round, prints
    nothing on the standard error and leaves the stop flag clear, and
    when the rounds end every record submitted has been printed. *)
Theorem X14_quiet_run_keeps_polling w :
  setup_ok w -> Forall quiet (rounds w) ->
  let p := (main w).1 in
  (main w).2 = None /\
  calls p = setup_calls ++ replicate (length (rounds w)) call_ring_buffer_poll /\
  stderr p = EmptyString /\
  emitted p = committed p /\
  stop p = false.
Proof.
  intros Hw Hq p. subst p. rewrite (main_setup_ok w Hw).
  destruct (poll_loop_quiet_prefix (rounds w) 0 loop_entry Hq eq_refl loop_entry_inv)
    as (p1 & e1 & Heq & He1 & Hi1 & Hs1 & Hr1 & Hc1 & Hm1); [lia|done|].
  pose proof (Heq []) as Hcut. rewrite app_nil_r in Hcut. rewrite Hcut.
  cbn [poll_loop fst snd]. done.
Qed.

Lemma X14_witness :
  setup_ok w_quiet /\ Forall quiet (rounds w_quiet) /\ (main w_quiet).2 = None.
Proof.
  assert (Hs : setup_ok w_quiet) by (repeat split).
  assert (Hq : Forall quiet (rounds w_quiet)) by (repeat constructor).
  split; [exact Hs|]. split; [exact Hq|].
  exact (proj1 (X14_quiet_run_keeps_polling w_quiet Hs Hq)).
Defined.


